(** * Birthday releases dashboard (streamlit_app.py): a shallow embedding

    The application asks two catalogue services which K-Pop albums and which
    films came out on a given month and day, and shows at most five of each.
    This file embeds the script: the two finder functions, the memoising
    decorator that wraps them, the form, the secrets, the two result columns
    with their post-processing and their cards; and it settles what the
    specification says about them.

    Conventions.  Python values that arrive as decoded JSON are terms of
    [pyval]; a Python call that may raise returns an [outcome]; what a
    function does to the outside world (catalogue searches, HTTP requests,
    widgets put on the page) is the list of [Event]s it returns next to its
    result.  The clock, the random generator and the two services are the
    fields of an [Env]. *)

From stdpp Require Import gmap strings.
From Stdlib Require Import ZArith QArith String Ascii List Lia.
From Stdlib Require Import Sorting.Sorted Sorting.Permutation DecimalString.
From Stdlib Require Import DecimalZ DecimalPos.
From Stdlib Require Import OrderedTypeEx.
Import ListNotations.

Set Warnings "-register-all".

Open Scope string_scope.
Open Scope list_scope.
Open Scope Z_scope.

(** ** Exceptions and results *)

(** The classes of [requests.exceptions] that matter to the code: all of them
    derive from [RequestException]. *)
Inductive request_error : Type :=
| ConnectionError
| ReadTimeout
| HTTPError
| InvalidJSONError.

(** The exceptions a run can meet.  [UnhashableParamError] is Streamlit's,
    an [Exception]; [KeyboardInterrupt] stands for the [BaseException]s that
    are not [Exception]s. *)
Inductive exn : Type :=
| KeyError
| TypeError
| ValueError
| AttributeError
| SpotifyException
| UnhashableParamError
| RequestException (r : request_error)
| KeyboardInterrupt.

(** [isinstance(e, Exception)]: what [except Exception] catches. *)
Definition is_Exception (e : exn) : bool :=
  match e with
  | KeyboardInterrupt => false
  | _ => true
  end.

(** [isinstance(e, requests.exceptions.RequestException)]. *)
Definition is_RequestException (e : exn) : bool :=
  match e with
  | RequestException _ => true
  | _ => false
  end.

Inductive outcome (A : Type) : Type :=
| Ok (a : A)
| Raise (e : exn).

Arguments Ok {A} a.
Arguments Raise {A} e.

(** Sequencing: the first exception ends the computation.  With these
    instances [x ← m; k] is stdpp's notation for it. *)
#[export] Instance outcome_ret : MRet outcome := fun A a => Ok a.

#[export] Instance outcome_bind : MBind outcome := fun A B k m =>
  match m with
  | Ok a => k a
  | Raise e => Raise e
  end.

(** ** Python values *)

(** A decoded JSON document: [None], [bool], a number (by its value: Python
    compares [int] and [float] by value; NaN and the infinities are outside
    the model), [str] (its UTF-8 bytes, whose order is the order of the code
    points), [list], and [dict] in insertion order. *)
Inductive pyval : Type :=
| VNone
| VBool (b : bool)
| VNum (q : Q)
| VStr (s : string)
| VList (items : list pyval)
| VDict (fields : list (string * pyval)).

Fixpoint assoc {A : Type} (k : string) (kv : list (string * A)) : option A :=
  match kv with
  | [] => None
  | (k', v) :: rest => if String.eqb k k' then Some v else assoc k rest
  end.

(** [v[k]] for a string key [k]. *)
Definition getitem (v : pyval) (k : string) : outcome pyval :=
  match v with
  | VDict kv =>
      match assoc k kv with
      | Some x => Ok x
      | None => Raise KeyError
      end
  | _ => Raise TypeError
  end.

(** [v.get(k, default)]: only a [dict] has the method. *)
Definition dict_get (v : pyval) (k : string) (default : pyval) : outcome pyval :=
  match v with
  | VDict kv =>
      match assoc k kv with
      | Some x => Ok x
      | None => Ok default
      end
  | _ => Raise AttributeError
  end.

(** Truth value of [v] in [if v:] and [not v]. *)
Definition truthy (v : pyval) : bool :=
  match v with
  | VNone => false
  | VBool b => b
  | VNum q => negb (Qeq_bool q 0)
  | VStr s => negb (String.eqb s "")
  | VList l => negb (Nat.eqb (length l) 0)
  | VDict kv => negb (Nat.eqb (length kv) 0)
  end.

(** A byte that continues a character of a UTF-8 text: [10xxxxxx]. *)
Definition is_continuation (c : ascii) : bool :=
  let n := Z.of_N (N_of_ascii c) in (128 <=? n) && (n <? 192).

(** The characters of [s] from its first leading byte on, and before them
    the continuation bytes that [s] starts with. *)
Fixpoint chars_after (s : string) : string * list pyval :=
  match s with
  | EmptyString => (EmptyString, [])
  | String c rest =>
      let '(continuation, l) := chars_after rest in
      if is_continuation c then (String c continuation, l)
      else (EmptyString, VStr (String c continuation) :: l)
  end.

(** The characters of a string, each as a string: a leading byte with the
    continuation bytes that follow it.  (The text of a [str] does not start
    with a continuation byte.) *)
Definition chars (s : string) : list pyval :=
  match chars_after s with
  | (EmptyString, l) => l
  | (continuation, l) => VStr continuation :: l
  end.

(** The elements [for x in v] goes through. *)
Definition iterate (v : pyval) : outcome (list pyval) :=
  match v with
  | VList l => Ok l
  | VDict kv => Ok (map (fun p => VStr (fst p)) kv)
  | VStr s => Ok (chars s)
  | _ => Raise TypeError
  end.

(** [v == s] for a string literal [s]. *)
Definition eq_str (v : pyval) (s : string) : bool :=
  match v with
  | VStr t => String.eqb t s
  | _ => false
  end.

(** The number a value counts as in comparisons ([True] is 1). *)
Definition as_number (v : pyval) : option Q :=
  match v with
  | VBool b => Some (if b then 1%Q else 0%Q)
  | VNum q => Some q
  | _ => None
  end.

(** [hash(v)] is defined: lists and dicts are unhashable. *)
Definition hashable (v : pyval) : bool :=
  match v with
  | VList _ | VDict _ => false
  | _ => true
  end.

(** Equality of two hashable values as dictionary keys. *)
Definition key_eqb (a b : pyval) : bool :=
  match a, b with
  | VNone, VNone => true
  | VStr s, VStr t => String.eqb s t
  | _, _ =>
      match as_number a, as_number b with
      | Some x, Some y => Qeq_bool x y
      | _, _ => false
      end
  end.

(** ** Integers in f-strings *)

(** [f"{n}"] for an [int]. *)
Definition str_of_int (n : Z) : string :=
  NilZero.string_of_int (Z.to_int n).

(** [f"{n:02d}"]: at least two characters, padded with a zero. *)
Definition format_02d (n : Z) : string :=
  let s := str_of_int n in
  if (String.length s <? 2)%nat then "0" +:+ s else s.

(** ** datetime.strptime(s, '%Y-%m-%d') *)

(** The parse follows the pattern the format compiles to, directive by
    directive, then checks that nothing is left of the string and that the
    date exists.  Digits are the ASCII digits: the other decimal digits of
    Unicode, which Python's [\d] takes as well, are refused here. *)

Module Datetime.

Record t : Type := mk { year : Z; month : Z; day : Z }.

Definition code (c : ascii) : Z := Z.of_N (N_of_ascii c).

Definition between (lo hi : ascii) (c : ascii) : bool :=
  (code lo <=? code c) && (code c <=? code hi).

Definition is_digit : ascii -> bool := between "0" "9".

Definition digit_value (c : ascii) : Z := code c - 48.

(** One alternative of a directive: it reads a prefix and gives its value. *)
Definition reader : Type := list ascii -> option (Z * list ascii).

Definition two (p1 p2 : ascii -> bool) : reader :=
  fun s =>
    match s with
    | c1 :: c2 :: rest =>
        if p1 c1 && p2 c2
        then Some (10 * digit_value c1 + digit_value c2, rest)
        else None
    | _ => None
    end.

Definition one (p : ascii -> bool) : reader :=
  fun s =>
    match s with
    | c :: rest => if p c then Some (digit_value c, rest) else None
    | _ => None
    end.

(** A blank and one digit, the last alternative of [%d]. *)
Definition blank_one (p : ascii -> bool) : reader :=
  fun s =>
    match s with
    | c1 :: c2 :: rest =>
        if Ascii.eqb c1 " " && p c2 then Some (digit_value c2, rest) else None
    | _ => None
    end.

(** [%Y] is [\d\d\d\d]. *)
Definition read_Y : reader :=
  fun s =>
    match s with
    | a :: b :: c :: d :: rest =>
        if is_digit a && is_digit b && is_digit c && is_digit d
        then Some (1000 * digit_value a + 100 * digit_value b
                   + 10 * digit_value c + digit_value d, rest)
        else None
    | _ => None
    end.

(** [%m] is [1[0-2]|0[1-9]|[1-9]]. *)
Definition alts_m : list reader :=
  [ two (between "1" "1") (between "0" "2");
    two (between "0" "0") (between "1" "9");
    one (between "1" "9") ].

(** [%d] is [3[0-1]|[1-2]\d|0[1-9]|[1-9]| [1-9]]. *)
Definition alts_d : list reader :=
  [ two (between "3" "3") (between "0" "1");
    two (between "1" "2") is_digit;
    two (between "0" "0") (between "1" "9");
    one (between "1" "9");
    blank_one (between "1" "9") ].

(** Alternation with backtracking: the first alternative after which the
    rest of the pattern [k] matches. *)
Fixpoint alternation {A : Type} (alts : list reader)
  (k : Z -> list ascii -> option A) (s : list ascii) : option A :=
  match alts with
  | [] => None
  | r :: more =>
      match (match r s with Some (v, rest) => k v rest | None => None end) with
      | Some a => Some a
      | None => alternation more k s
      end
  end.

Definition literal {A : Type} (c : ascii) (k : list ascii -> option A)
  (s : list ascii) : option A :=
  match s with
  | c' :: rest => if Ascii.eqb c c' then k rest else None
  | [] => None
  end.

(** The compiled pattern matched at the start of [s]; the result carries the
    unread rest of [s]. *)
Definition regex_match (s : list ascii) : option (Z * Z * Z * list ascii) :=
  match read_Y s with
  | Some (y, s1) =>
      literal "-" (alternation alts_m (fun m =>
        literal "-" (alternation alts_d (fun d rest => Some (y, m, d, rest))))) s1
  | None => None
  end.

Definition is_leap (y : Z) : bool :=
  (y mod 4 =? 0) && (negb (y mod 100 =? 0) || (y mod 400 =? 0)).

Definition days_in_month (y m : Z) : Z :=
  if m =? 2 then (if is_leap y then 29 else 28)
  else if (m =? 4) || (m =? 6) || (m =? 9) || (m =? 11) then 30
  else 31.

(** [date(y, m, d)] exists. *)
Definition valid_date (y m d : Z) : bool :=
  (1 <=? y) && (y <=? 9999) && (1 <=? m) && (m <=? 12)
  && (1 <=? d) && (d <=? days_in_month y m).

(** [datetime.strptime(s, '%Y-%m-%d')] on a [str]. *)
Definition strptime_str (s : string) : outcome t :=
  match regex_match (list_ascii_of_string s) with
  | Some (y, m, d, rest) =>
      match rest with
      | [] => if valid_date y m d then Ok (mk y m d) else Raise ValueError
      | _ :: _ => Raise ValueError
      end
  | None => Raise ValueError
  end.

(** [datetime.strptime(v, '%Y-%m-%d')]: the first argument must be a [str]. *)
Definition strptime (v : pyval) : outcome t :=
  match v with
  | VStr s => strptime_str s
  | _ => Raise TypeError
  end.

End Datetime.

(** ** random.sample(population, k) *)

Module Random.

(** The generator, as the numbers its successive draws give: the [i]-th call
    of [randbelow(m)] returns [rng i mod m].  Every sequence of draws is the
    sequence of some generator. *)
Definition generator : Type := nat -> nat.

(** The selection loop of [sample] over a pool:
    [j = randbelow(n - i); result[i] = pool[j]; pool[j] = pool[n - i - 1]].
    The argument [pool] is the live part [pool[0 : n - i]]. *)
Fixpoint select {A : Type} (rng : generator) (i : nat) (pool : list A)
  (k : nat) : list A :=
  match k with
  | O => []
  | S k' =>
      let m := length pool in
      let j := (rng i mod m)%nat in
      match pool !! j, pool !! (m - 1)%nat with
      | Some x, Some y =>
          x :: select rng (S i) (take (m - 1) (<[j := y]> pool)) k'
      | _, _ => []
      end
  end.

(** [random.sample(population, k)]: [ValueError] when the sample is larger
    than the population.  (For a population much larger than the sample
    CPython draws indices by rejection instead of moving the pool; the lists
    it can return are the same.) *)
Definition sample {A : Type} (rng : generator) (population : list A)
  (k : nat) : outcome (list A) :=
  if (k <=? length population)%nat
  then Ok (select rng 0 population k)
  else Raise ValueError.

End Random.

(** [list(range(start, stop, -1))]. *)
Definition range_down (start stop : Z) : list Z :=
  map (fun i => start - Z.of_nat i) (seq 0 (Z.to_nat (start - stop))).

(** ** The outside world *)

(** [spotipy.Spotify(auth_manager=SpotifyClientCredentials(client_id,
    client_secret))]: the client is its credentials. *)
Record Spotify : Type := {
  client_id : string;
  client_secret : string
}.

(** The arguments of [sp_client.search]. *)
Record SearchCall : Type := {
  q : string;
  type_ : string;
  limit : Z;
  market : string
}.

(** What [requests.get] returns: [json] is what [response.json()] gives. *)
Record Response : Type := {
  status_code : Z;
  json : outcome pyval
}.

(** The world a finder runs in: [datetime.now().year], the state of the
    random generator, and what the two services answer:
    [sp_client.search(q, type, limit, market)] and
    [requests.get(url, timeout)].  Within one run no query is made twice, so
    an answer is a function of the query. *)
Record Env : Type := {
  now_year : Z;
  rng : Random.generator;
  spotify_search : Spotify -> SearchCall -> outcome pyval;
  requests_get : string -> Z -> outcome Response
}.

(** The notices the code puts on the page. *)
Inductive Element : Type :=
| st_error (body : string)
| st_info (body : string)
| st_success (body : string)
| st_subheader (body : string).

Inductive Event : Type :=
| Searched (sp_client : Spotify) (call : SearchCall)
| Requested (url : string) (timeout : Z)
| Shown (el : Element).

Definition is_network (ev : Event) : bool :=
  match ev with
  | Shown _ => false
  | _ => true
  end.

(** The calls to the two services among the events of a run. *)
Definition network_calls (evs : list Event) : list Event :=
  filter is_network evs.

Definition emit {A : Type} (ev : Event) (r : A * list Event) : A * list Event :=
  (fst r, ev :: snd r).

(** ** get_spotify_releases *)

Definition double_quote : string := String "034"%char EmptyString.

(** [f'genre:"k-pop" year:{year}'] *)
Definition query_of (year : Z) : string :=
  "genre:" +:+ double_quote +:+ "k-pop" +:+ double_quote +:+ " year:"
  +:+ str_of_int year.

Definition search_call (year : Z) : SearchCall :=
  {| q := query_of year; type_ := "album"; limit := 50; market := "KR" |}.

(** The test of one album: [Ok true] when the album is appended. *)
Definition album_matches (month day : Z) (album : pyval) : outcome bool :=
  precision ← getitem album "release_date_precision";
  if eq_str precision "day" then
    text ← getitem album "release_date";
    release_date ← Datetime.strptime text;
    Ok ((Datetime.month release_date =? month)
        && (Datetime.day release_date =? day))
  else Ok false.

(** The inner [for album in ...] loop on the list [albums_found]: the list
    as the loop leaves it, and the exception that ended the loop, if any. *)
Fixpoint scan_albums (month day : Z) (items : list pyval)
  (albums_found : list pyval) : list pyval * option exn :=
  match items with
  | [] => (albums_found, None)
  | album :: rest =>
      match album_matches month day album with
      | Raise e => (albums_found, Some e)
      | Ok true => scan_albums month day rest (albums_found ++ [album])
      | Ok false => scan_albums month day rest albums_found
      end
  end.

(** The search of one year and the sequence the inner loop goes through:
    [results['albums']['items']]. *)
Definition search_year (env : Env) (sp_client : Spotify) (year : Z)
  : outcome (list pyval) :=
  results ← spotify_search env sp_client (search_call year);
  albums ← getitem results "albums";
  items ← getitem albums "items";
  iterate items.

(** The [try] body of one year up to the test of the length: the list
    [albums_found] as it leaves it, and the exception that ended it, if any. *)
Definition try_year (env : Env) (month day : Z) (sp_client : Spotify)
  (year : Z) (albums_found : list pyval) : list pyval * option exn :=
  match search_year env sp_client year with
  | Raise e => (albums_found, Some e)
  | Ok items => scan_albums month day items albums_found
  end.

(** The [for year in ...] loop: [try] body, [break] and
    [except Exception: continue]. *)
Fixpoint year_loop (env : Env) (month day : Z) (sp_client : Spotify)
  (years : list Z) (albums_found : list pyval)
  : outcome (list pyval) * list Event :=
  match years with
  | [] => (Ok albums_found, [])
  | year :: rest =>
      let call := Searched sp_client (search_call year) in
      match try_year env month day sp_client year albums_found with
      | (found, None) =>
          if (5 <? length found)%nat
          then (Ok found, [call])
          else emit call (year_loop env month day sp_client rest found)
      | (found, Some e) =>
          if is_Exception e
          then emit call (year_loop env month day sp_client rest found)
          else (Raise e, [call])
      end
  end.

(** [range(current_year - 1, 2000, -1)] *)
Definition years_to_search (current_year : Z) : list Z :=
  range_down (current_year - 1) 2000.

(** [random.sample(years_to_search, min(len(years_to_search), 10))] *)
Definition sampled_years (env : Env) : outcome (list Z) :=
  let years := years_to_search (now_year env) in
  Random.sample (rng env) years (Nat.min (length years) 10).

(** The body of [get_spotify_releases], without its decorator. *)
Definition get_spotify_releases (env : Env) (month day : Z)
  (sp_client : Spotify) : outcome (list pyval) * list Event :=
  let albums_found := [] in
  match sampled_years env with
  | Raise e => (Raise e, [])
  | Ok years => year_loop env month day sp_client years albums_found
  end.

(** ** get_movie_recommendations *)

Definition MSG_NO_TMDB_KEY : string :=
  "TMDb API 키가 설정되지 않았습니다. .streamlit/secrets.toml 파일을 확인해주세요.".

(** [not api_key], for a key that is a string or [None]. *)
Definition not_key (api_key : option string) : bool :=
  match api_key with
  | None => true
  | Some s => String.eqb s ""
  end.

(** [f"{api_key}"] *)
Definition str_of_key (api_key : option string) : string :=
  match api_key with
  | None => "None"
  | Some s => s
  end.

Definition discover_url (api_key : option string) (year month day : Z) : string :=
  let release_date :=
    str_of_int year +:+ "-" +:+ format_02d month +:+ "-" +:+ format_02d day in
  "https://api.themoviedb.org/3/discover/movie?api_key=" +:+ str_of_key api_key
  +:+ "&language=ko-KR&region=KR&sort_by=popularity.desc"
  +:+ "&primary_release_date.gte=" +:+ release_date
  +:+ "&primary_release_date.lte=" +:+ release_date.

(** [response.raise_for_status()]: an [HTTPError] for a 4xx or 5xx status. *)
Definition raise_for_status (response : Response) : outcome unit :=
  if (400 <=? status_code response) && (status_code response <? 600)
  then Raise (RequestException HTTPError)
  else Ok tt.

(** The [try] body for one year: the records [movies] is extended with
    (none when [data.get("results")] is false). *)
Definition discover (env : Env) (api_key : option string)
  (year month day : Z) : outcome (list pyval) :=
  response ← requests_get env (discover_url api_key year month day) 10;
  _ ← raise_for_status response;
  data ← json response;
  found ← dict_get data "results" VNone;
  if truthy found then
    results ← getitem data "results";
    iterate results
  else Ok [].

(** The [for year in range(...)] loop with
    [except requests.exceptions.RequestException: continue]. *)
Fixpoint movie_loop (env : Env) (api_key : option string) (month day : Z)
  (years : list Z) (movies : list pyval) : outcome (list pyval) * list Event :=
  match years with
  | [] => (Ok movies, [])
  | year :: rest =>
      let call := Requested (discover_url api_key year month day) 10 in
      match discover env api_key year month day with
      | Ok results =>
          emit call (movie_loop env api_key month day rest (movies ++ results))
      | Raise e =>
          if is_RequestException e
          then emit call (movie_loop env api_key month day rest movies)
          else (Raise e, [call])
      end
  end.

(** [range(current_year, current_year - 20, -1)] *)
Definition movie_years (current_year : Z) : list Z :=
  range_down current_year (current_year - 20).

(** The body of [get_movie_recommendations], without its decorator. *)
Definition get_movie_recommendations (env : Env) (month day : Z)
  (api_key : option string) : outcome (list pyval) * list Event :=
  if not_key api_key then (Ok [], [Shown (st_error MSG_NO_TMDB_KEY)])
  else
    let movies := [] in
    movie_loop env api_key month day (movie_years (now_year env)) movies.

(** ** @st.cache_data *)

(** What the decorator keeps for one key: the value the function returned
    and the widgets it put on the page, which a later hit puts there again. *)
Record Entry : Type := {
  value : list pyval;
  elements : list Element
}.

Definition elements_of (evs : list Event) : list Element :=
  flat_map (fun ev => match ev with Shown el => [el] | _ => [] end) evs.

(** A call of a decorated function with arguments [k], where [body] is what
    the undecorated function does on them: a stored entry answers without
    running the body; otherwise the body runs and, unless it raises, its
    result is stored.  Entries are never dropped. *)
Definition cache_data {K : Type} `{Countable K}
  (body : outcome (list pyval) * list Event) (store : gmap K Entry) (k : K)
  : outcome (list pyval) * list Event * gmap K Entry :=
  match store !! k with
  | Some entry => (Ok (value entry), map Shown (elements entry), store)
  | None =>
      match body with
      | (Ok v, evs) =>
          (Ok v, evs, <[k := {| value := v; elements := elements_of evs |}]> store)
      | (Raise e, evs) => (Raise e, evs, store)
      end
  end.

(** The two stores of the process, one per decorated function, each under
    the hash of the arguments. *)
Record Cache : Type := {
  spotify_releases : gmap (Z * Z * string) Entry;
  movie_recommendations : gmap (Z * Z * option string) Entry
}.

Definition empty_cache : Cache :=
  {| spotify_releases := ∅; movie_recommendations := ∅ |}.

(** The hash the decorator makes of the argument [sp_client].  It hashes
    every argument whose name does not start with an underscore, by its
    type: an [int], a [str] and [None] have a hash (they stand for
    themselves in the keys of the stores); an instance of a class Streamlit
    does not know is hashed through its [__reduce__], whose first item is a
    function, which has none.  An instance of [spotipy.Spotify] is such an
    instance: the decorator raises [UnhashableParamError]. *)
Definition hash_client (sp_client : Spotify) : outcome string :=
  Raise UnhashableParamError.

(** [get_spotify_releases] as the module binds it, decorated: the arguments
    are hashed before the store is looked up and before the body runs. *)
Definition cached_get_spotify_releases (env : Env) (cache : Cache)
  (month day : Z) (sp_client : Spotify)
  : outcome (list pyval) * list Event * Cache :=
  match hash_client sp_client with
  | Raise e => (Raise e, [], cache)
  | Ok h =>
      let '(r, evs, store) :=
        cache_data (get_spotify_releases env month day sp_client)
          (spotify_releases cache) (month, day, h) in
      (r, evs, {| spotify_releases := store;
                  movie_recommendations := movie_recommendations cache |})
  end.

(** [get_movie_recommendations] as the module binds it, decorated. *)
Definition cached_get_movie_recommendations (env : Env) (cache : Cache)
  (month day : Z) (api_key : option string)
  : outcome (list pyval) * list Event * Cache :=
  let '(r, evs, store) :=
    cache_data (get_movie_recommendations env month day api_key)
      (movie_recommendations cache) (month, day, api_key) in
  (r, evs, {| spotify_releases := spotify_releases cache;
              movie_recommendations := store |}).

(** One call of either decorated function, as a step on the cache; the
    life of the process is a sequence of such steps ([rtc cache_step]). *)
Inductive cache_step : Cache -> Cache -> Prop :=
| step_spotify env c month day sp_client r evs c' :
    cached_get_spotify_releases env c month day sp_client = (r, evs, c') ->
    cache_step c c'
| step_movie env c month day api_key r evs c' :
    cached_get_movie_recommendations env c month day api_key = (r, evs, c') ->
    cache_step c c'.

(** ** The post-processing of the two columns *)

(** [sorted(..., reverse=True)] on records paired with their keys: a stable
    sort that only asks whether one key is less than another, so records
    with equal keys keep their order. *)
Section StableSort.

Context {K A : Type} (ltb : K -> K -> bool).

Fixpoint insert_desc (x : K * A) (l : list (K * A)) : list (K * A) :=
  match l with
  | [] => [x]
  | y :: rest =>
      if ltb (fst x) (fst y) then y :: insert_desc x rest else x :: l
  end.

Definition sort_desc (l : list (K * A)) : list (K * A) :=
  fold_right insert_desc [] l.

End StableSort.

Definition Qltb (x y : Q) : bool := negb (Qle_bool y x).

Fixpoint str_keys (keyed : list (pyval * pyval)) : option (list (string * pyval)) :=
  match keyed with
  | [] => Some []
  | (VStr s, x) :: rest =>
      match str_keys rest with
      | Some l => Some ((s, x) :: l)
      | None => None
      end
  | _ :: _ => None
  end.

Fixpoint num_keys (keyed : list (pyval * pyval)) : option (list (Q * pyval)) :=
  match keyed with
  | [] => Some []
  | (k, x) :: rest =>
      match as_number k, num_keys rest with
      | Some n, Some l => Some ((n, x) :: l)
      | _, _ => None
      end
  end.

(** [sorted(records, key=..., reverse=True)] once the keys are computed.
    Keys that are all strings or all numbers are ordered; with two records
    or more, [None], a [dict] or a mix of strings and numbers among the keys
    is a [TypeError].  (Lists as keys are outside the model.) *)
Definition sorted_reverse (keyed : list (pyval * pyval)) : outcome (list pyval) :=
  match keyed with
  | [] | [_] => Ok (map snd keyed)
  | _ =>
      match str_keys keyed with
      | Some l => Ok (map snd (sort_desc String.ltb l))
      | None =>
          match num_keys keyed with
          | Some l => Ok (map snd (sort_desc Qltb l))
          | None => Raise TypeError
          end
      end
  end.

(** [d[k] = v] on a dict in insertion order: a key already present keeps
    its place and takes the new value. *)
Fixpoint dict_set (k v : pyval) (d : list (pyval * pyval)) : list (pyval * pyval) :=
  match d with
  | [] => [(k, v)]
  | (k', v') :: rest =>
      if key_eqb k' k then (k', v) :: rest else (k', v') :: dict_set k v rest
  end.

(** [{r['id']: r for r in records}], built from the dict [d]. *)
Fixpoint by_id (records : list pyval) (d : list (pyval * pyval))
  : outcome (list (pyval * pyval)) :=
  match records with
  | [] => Ok d
  | r :: rest =>
      id ← getitem r "id";
      if hashable id then by_id rest (dict_set id r d) else Raise TypeError
  end.

(** [{r['id']: r for r in records}.values()] *)
Definition unique (records : list pyval) : outcome (list pyval) :=
  d ← by_id records [];
  Ok (map snd d).

(** The keys [sorted] computes, in the order of the records. *)
Fixpoint with_keys (key : pyval -> outcome pyval) (records : list pyval)
  : outcome (list (pyval * pyval)) :=
  match records with
  | [] => Ok []
  | x :: rest =>
      k ← key x;
      l ← with_keys key rest;
      Ok ((k, x) :: l)
  end.

(** [lambda x: x['release_date']] *)
Definition album_key (x : pyval) : outcome pyval := getitem x "release_date".

(** [lambda x: x.get('vote_average', 0)] *)
Definition movie_key (x : pyval) : outcome pyval :=
  dict_get x "vote_average" (VNum 0).

(** [sorted_albums[:5]], the albums the page shows. *)
Definition shown_albums (albums : list pyval) : outcome (list pyval) :=
  unique_albums ← unique albums;
  keyed ← with_keys album_key unique_albums;
  sorted_albums ← sorted_reverse keyed;
  Ok (firstn 5 sorted_albums).

(** [sorted_movies[:5]], the films the page shows. *)
Definition shown_movies (movies : list pyval) : outcome (list pyval) :=
  unique_movies ← unique movies;
  keyed ← with_keys movie_key unique_movies;
  sorted_movies ← sorted_reverse keyed;
  Ok (firstn 5 sorted_movies).

Definition MSG_ALBUMS_FOUND : string :=
  "당신의 생일에 이런 명반들이 발매되었어요!".

Definition MSG_NO_ALBUMS : string :=
  "아쉽게도 당신의 생일에 발매된 K-Pop 앨범 정보를 찾지 못했어요.".

Definition MSG_MOVIES_FOUND : string :=
  "당신의 생일에 이런 영화들이 개봉했어요!".

Definition MSG_NO_MOVIES : string :=
  "아쉽게도 당신의 생일에 개봉한 영화 정보를 찾지 못했어요.".

Definition album_subheader (month day : Z) : string :=
  "🎤 역대 " +:+ str_of_int month +:+ "월 " +:+ str_of_int day
  +:+ "일에 발매된 K-Pop".

Definition movie_subheader (month day : Z) : string :=
  "🎬 역대 " +:+ str_of_int month +:+ "월 " +:+ str_of_int day
  +:+ "일에 개봉한 영화".

(** ** Vocabulary of the statements *)

(** The record is dated to the day and its date parses to [month] and [day]. *)
Definition released_on (month day : Z) (album : pyval) : Prop :=
  getitem album "release_date_precision" = Ok (VStr "day")
  /\ exists text date,
       getitem album "release_date" = Ok text
       /\ Datetime.strptime text = Ok date
       /\ Datetime.month date = month
       /\ Datetime.day date = day.

(** The album passes the test of the inner loop. *)
Definition is_match (month day : Z) (album : pyval) : bool :=
  match album_matches month day album with
  | Ok true => true
  | _ => false
  end.

(** The albums the processing of one year appends to [albums_found]. *)
Definition year_matches (env : Env) (month day : Z) (sp_client : Spotify)
  (year : Z) : list pyval :=
  fst (try_year env month day sp_client year []).

(** The search events of the given years, in order. *)
Definition searches (sp_client : Spotify) (years : list Z) : list Event :=
  map (fun year => Searched sp_client (search_call year)) years.

(** The records the film finder gets from one year: none when the [try]
    body raises. *)
Definition year_results (env : Env) (api_key : option string)
  (month day : Z) (year : Z) : list pyval :=
  match discover env api_key year month day with
  | Ok results => results
  | Raise _ => []
  end.

(** The request events of the given years, in order. *)
Definition requests (api_key : option string) (month day : Z)
  (years : list Z) : list Event :=
  map (fun year => Requested (discover_url api_key year month day) 10) years.

(** [for x in v] does not raise. *)
Definition iterable (v : pyval) : bool :=
  match v with
  | VList _ | VDict _ | VStr _ => true
  | _ => false
  end.

(** The answer to a request is one the film service's interface allows: a
    failure of the request itself, an error status, a body that
    [response.json()] rejects with a request error, or a JSON object whose
    [results], if any and if true, can be iterated. *)
Definition conforms (answer : outcome Response) : bool :=
  match answer with
  | Raise e => is_RequestException e
  | Ok response =>
      match raise_for_status response with
      | Raise _ => true
      | Ok _ =>
          match json response with
          | Raise e => is_RequestException e
          | Ok (VDict fields) =>
              match assoc "results" fields with
              | Some v => negb (truthy v) || iterable v
              | None => true
              end
          | Ok _ => false
          end
      end
  end.

(** What the film finder leaves in its store for a key that is empty or
    [None]: the empty list and the error message. *)
Definition no_key_entry : Entry :=
  {| value := []; elements := [st_error MSG_NO_TMDB_KEY] |}.

(** Every entry of the film store under an empty or missing key is
    [no_key_entry]. *)
Definition no_key_entries (c : Cache) : Prop :=
  forall month day api_key entry,
    movie_recommendations c !! (month, day, api_key) = Some entry ->
    not_key api_key = true ->
    entry = no_key_entry.

(** The keys of a dict are pairwise different. *)
Definition distinct_keys (d : list (pyval * pyval)) : Prop :=
  ForallOrdPairs (fun a b => key_eqb a b = false) (map fst d).

(** No record of the list has an id equal to the key [k]. *)
Definition free_of (k : pyval) (records : list pyval) : Prop :=
  Forall (fun r => forall i, getitem r "id" = Ok i -> key_eqb k i = false)
    records.

(** The record is a dict with a hashable [id]. *)
Definition has_id (r : pyval) : Prop :=
  exists i, getitem r "id" = Ok i /\ hashable i = true.

(** An album as the music service documents it, as far as the column reads
    it: an [id] and a [release_date] that is a string. *)
Definition album_record (r : pyval) : Prop :=
  has_id r /\ exists s, getitem r "release_date" = Ok (VStr s).

(** A film as the film service documents it, as far as the column reads it:
    an [id] and a [vote_average] that is a number, or none. *)
Definition movie_record (r : pyval) : Prop :=
  has_id r
  /\ exists k n, dict_get r "vote_average" (VNum 0) = Ok k
                 /\ as_number k = Some n.

(** The two records have equal ids. *)
Definition same_id (a b : pyval) : Prop :=
  exists i j,
    getitem a "id" = Ok i /\ getitem b "id" = Ok j /\ key_eqb i j = true.

(** No two records of the list, at different places, have equal ids. *)
Definition distinct_ids (records : list pyval) : Prop :=
  ForallOrdPairs (fun a b => ~ same_id a b) records.

(** The record stands in the list and no record after it has its id. *)
Definition last_of_its_id (records : list pyval) (r : pyval) : Prop :=
  exists before after,
    records = before ++ r :: after
    /\ Forall (fun r' => ~ same_id r r') after.

(** [a <= b] for two strings or two numbers. *)
Definition py_le (a b : pyval) : Prop :=
  match a, b with
  | VStr s, VStr t => String.leb s t = true
  | _, _ =>
      match as_number a, as_number b with
      | Some x, Some y => (x <= y)%Q
      | _, _ => False
      end
  end.

(** Every record has a key that is at least the key of each record after
    it. *)
Definition descending (key : pyval -> outcome pyval) (records : list pyval)
  : Prop :=
  StronglySorted
    (fun x y => exists kx ky, key x = Ok kx /\ key y = Ok ky /\ py_le ky kx)
    records.

(** In a list of keyed records: the key of [p] is not less than that of [q]. *)
Definition not_less {K A : Type} (ltb : K -> K -> bool) (p q : K * A) : Prop :=
  ltb (fst p) (fst q) = false.

(** The records are the deduplicated list, sorted, cut to five. *)
Definition top_five_of (key : pyval -> outcome pyval)
  (records top : list pyval) : Prop :=
  exists deduplicated ordered,
    unique records = Ok deduplicated
    /\ Permutation ordered deduplicated
    /\ descending key ordered
    /\ top = firstn 5 ordered.

(** ** Sample data for the examples *)

Definition album (id date precision : string) : pyval :=
  VDict [("id", VStr id); ("release_date", VStr date);
         ("release_date_precision", VStr precision)].

(** A search response with the given album items. *)
Definition search_results (items : list pyval) : pyval :=
  VDict [("albums", VDict [("items", VList items)])].

(** A catalogue that answers the query of each listed year as listed, and
    any other query with no item. *)
Definition catalog (table : list (Z * outcome pyval))
  : Spotify -> SearchCall -> outcome pyval :=
  fun _ call =>
    match find (fun p => String.eqb (q call) (query_of (fst p))) table with
    | Some p => snd p
    | None => Ok (search_results [])
    end.

Definition movie (id : Z) (vote_average : Q) : pyval :=
  VDict [("id", VNum (inject_Z id)); ("vote_average", VNum vote_average)].

(** A 200 response whose body is [{"results": items}]. *)
Definition discover_results (items : list pyval) : Response :=
  {| status_code := 200; json := Ok (VDict [("results", VList items)]) |}.

(** A film service that answers the request of each listed year as listed,
    and any other request with no result. *)
Definition film_service (api_key : option string) (month day : Z)
  (table : list (Z * outcome Response)) : string -> Z -> outcome Response :=
  fun url _ =>
    match find (fun p => String.eqb url (discover_url api_key (fst p) month day))
               table with
    | Some p => snd p
    | None => Ok (discover_results [])
    end.

Definition sp0 : Spotify := {| client_id := "id"; client_secret := "secret" |}.

Definition seven_albums : list pyval :=
  [ album "a1" "2016-03-01" "day"; album "a2" "2016-03-01" "day";
    album "a3" "2016-03-01" "day"; album "a4" "2016-03-01" "day";
    album "a5" "2016-03-01" "day"; album "a6" "2016-03-01" "day";
    album "a7" "2016-03-01" "day" ].

(** In 2017, with a generator that draws 2015 first, 2016 second and 2002
    third: the search of 2015 raises, 2016 has seven albums of 1 March (and
    two that are not), 2002 has one. *)
Definition env_stub : Env := {|
  now_year := 2017;
  rng := fun i => match i with O => 1%nat | _ => 0%nat end;
  spotify_search :=
    catalog
      [ (2015, Raise SpotifyException);
        (2016, Ok (search_results
                     (album "b1" "2016-03-02" "day"
                      :: album "b2" "2016-03" "month" :: seven_albums)));
        (2002, Ok (search_results [album "c1" "2002-03-01" "day"])) ];
  requests_get :=
    film_service (Some "KEY") 3 1
      [ (2017, Ok (discover_results [movie 1 (72 # 10); movie 2 9]));
        (2016, Raise (RequestException ReadTimeout));
        (2015, Ok {| status_code := 500; json := Ok VNone |});
        (2014, Ok (discover_results [movie 3 8])) ]
|}.

(** The same year and generator; the response of 2015 has a record dated to
    the day whose date does not parse, between two albums of 1 March. *)
Definition env_bad_date : Env := {|
  now_year := 2017;
  rng := fun i => match i with O => 1%nat | _ => 0%nat end;
  spotify_search :=
    catalog
      [ (2015, Ok (search_results
                     [ album "d1" "2015-03-01" "day";
                       album "d2" "March 2015" "day";
                       album "d3" "2015-03-01" "day" ]));
        (2016, Ok (search_results [album "e1" "2016-03-01" "day"])) ];
  requests_get := fun _ _ => Raise (RequestException ConnectionError)
|}.

(** The cache after a first film request of 1 March in [env_stub]. *)
Definition cache_after_movies : Cache :=
  snd (cached_get_movie_recommendations env_stub empty_cache 3 1 (Some "KEY")).

Definition six_albums : list pyval :=
  [ album "a1" "2015-03-01" "day"; album "a2" "2015-03-01" "day";
    album "a3" "2015-03-01" "day"; album "a4" "2015-03-01" "day";
    album "a5" "2015-03-01" "day"; album "a6" "2015-03-01" "day" ].

(** The same year and generator; the response of 2015 has six albums of
    1 March and then an item that is [null], that of 2016 one album. *)
Definition env_null_item : Env := {|
  now_year := 2017;
  rng := fun i => match i with O => 1%nat | _ => 0%nat end;
  spotify_search :=
    catalog
      [ (2015, Ok (search_results (six_albums ++ [VNone])));
        (2016, Ok (search_results [album "e1" "2016-03-01" "day"])) ];
  requests_get := fun _ _ => Raise (RequestException ConnectionError)
|}.

(** The same year and generator; the search of 2015 is interrupted. *)
Definition env_interrupted : Env := {|
  now_year := 2017;
  rng := fun i => match i with O => 1%nat | _ => 0%nat end;
  spotify_search := catalog [(2015, Raise KeyboardInterrupt)];
  requests_get := fun _ _ => Raise (RequestException ConnectionError)
|}.

(** In 2017: the film service answers the request of 2017 with the status
    200 and a body that is a JSON list, that of 2016 with one film. *)
Definition env_list_body : Env := {|
  now_year := 2017;
  rng := fun i => match i with O => 1%nat | _ => 0%nat end;
  spotify_search := catalog [];
  requests_get :=
    film_service (Some "KEY") 3 1
      [ (2017, Ok {| status_code := 200; json := Ok (VList []) |});
        (2016, Ok (discover_results [movie 3 8])) ]
|}.

(** In 2017: the film service answers the request of 2017 with the status
    300 and a body with one film. *)
Definition env_status_300 : Env := {|
  now_year := 2017;
  rng := fun i => match i with O => 1%nat | _ => 0%nat end;
  spotify_search := catalog [];
  requests_get :=
    film_service (Some "KEY") 3 1
      [ (2017, Ok {| status_code := 300;
                     json := Ok (VDict [("results", VList [movie 1 9])]) |}) ]
|}.

(** The records of the examples of the two columns. *)
Definition album_a : pyval :=
  VDict [("id", VStr "a"); ("release_date", VStr "2012-03-01")].

Definition album_b : pyval :=
  VDict [("id", VStr "b"); ("release_date", VStr "2015-03-01")].

Definition movie_1 : pyval :=
  VDict [("id", VNum 1); ("vote_average", VNum (72 # 10))].

Definition movie_2 : pyval :=
  VDict [("id", VNum 2); ("vote_average", VNum 9)].

(** Two records with the id [a] that differ in their name. *)
Definition album_a_first : pyval :=
  VDict [("id", VStr "a"); ("name", VStr "first pressing");
         ("release_date", VStr "2012-03-01")].

Definition album_a_last : pyval :=
  VDict [("id", VStr "a"); ("name", VStr "repackage");
         ("release_date", VStr "2012-03-01")].

(** ** Proof steps *)

(** The hypothesis to come says which exception was raised: the exception
    of the goal becomes that one. *)
Ltac raised :=
  let H := fresh "Hraised" in
  intros H; injection H as <-.

(** * The rest of the script *)

(** ** Rendering a record (lines 145-151 and 168-172) *)

(** A piece of an f-string: literal text, a value formatted as [{v}], a
    value formatted as [{v:.1f}].  The text a value is formatted to is not
    computed: the piece keeps the value. *)
Inductive Piece : Type :=
| Lit (s : string)
| Str (v : pyval)
| Fixed1 (v : pyval).

(** The calls that put something on the page, with their arguments.  The
    notices of the finders and of the two columns are the [Element]s.  A
    widget is taken not to raise on the texts the script gives it; what
    [st.image] does with an address that is not a string is left out. *)
Inductive Widget : Type :=
| st_set_page_config (page_title page_icon layout : string)
| st_title (body : string)
| st_markdown (body : list Piece)
| st_header (body : string)
| st_selectbox (label : string) (options : list Z) (index : Z)
| st_form_submit_button (label : string)
| st_image (src : list Piece) (legend : option string)
| st_caption (body : list Piece)
| st_divider
| element (el : Element).

(** What a piece of code has drawn, and the exception that ended it, if
    any. *)
Definition Drawn : Type := list Widget * option exn.

(** Evaluate [m]; go on with its value, or end with its exception. *)
Definition eval {A : Type} (m : outcome A) (k : A -> Drawn) : Drawn :=
  match m with
  | Ok a => k a
  | Raise e => ([], Some e)
  end.

(** Draw [w], then go on. *)
Definition draw (w : Widget) (k : Drawn) : Drawn := (w :: fst k, snd k).

Definition drawn : Drawn := ([], None).

Notation "'val' x := m 'in' k" := (eval m (fun x => k))
  (at level 10, x name, m at level 200, k at level 200, only parsing).

(** [[artist['name'] for artist in artists]] *)
Fixpoint names_of (artists : list pyval) : outcome (list pyval) :=
  match artists with
  | [] => Ok []
  | artist :: rest =>
      name ← getitem artist "name";
      names ← names_of rest;
      Ok (name :: names)
  end.

(** The items of a list that [str.join] accepts: all of them strings. *)
Fixpoint strings_of (items : list pyval) : outcome (list string) :=
  match items with
  | [] => Ok []
  | VStr s :: rest =>
      l ← strings_of rest;
      Ok (s :: l)
  | _ :: _ => Raise TypeError
  end.

(** [sep.join(items)] *)
Definition join (sep : string) (items : list pyval) : outcome string :=
  l ← strings_of items;
  Ok (String.concat sep l).

(** [images[0]['url']] under [if images:]: nothing when [images] is false
    (the branch is not taken); the [url] of the first item of a list; a
    [dict] has no key 0, a character of a string has no key, and the other
    values cannot be subscripted. *)
Definition first_url_if_true (images : pyval) : option (outcome pyval) :=
  match images with
  | VList (first :: _) => Some (getitem first "url")
  | VStr (String _ _) => Some (Raise TypeError)
  | VDict (_ :: _) => Some (Raise KeyError)
  | VNum q => if Qeq_bool q 0 then None else Some (Raise TypeError)
  | VBool true => Some (Raise TypeError)
  | _ => None
  end.

(** [f"{v:.1f}"] is defined: on a number; a string has no format code [f]
    and the other values take no format. *)
Definition format_1f (v : pyval) : outcome unit :=
  match v with
  | VNum _ | VBool _ => Ok tt
  | VStr _ => Raise ValueError
  | _ => Raise TypeError
  end.

Definition ALBUM_DATE : string := "발매일: ".

Definition LISTEN_ON_SPOTIFY : string := "[🎧 Spotify에서 듣기](".

(** The body of [for album in sorted_albums[:5]]. *)
Definition render_album (album : pyval) : Drawn :=
  val artists := getitem album "artists" in
  val artists := iterate artists in
  val names := names_of artists in
  val artist_name := join ", " names in
  val name := getitem album "name" in
  draw (st_markdown [Lit "**"; Str name; Lit "** - "; Lit artist_name])
  (val images := getitem album "images" in
   let then_ :=
     val release_date := getitem album "release_date" in
     draw (st_caption [Lit ALBUM_DATE; Str release_date])
     (val external_urls := getitem album "external_urls" in
      val spotify := getitem external_urls "spotify" in
      draw (st_markdown [Lit LISTEN_ON_SPOTIFY; Str spotify; Lit ")"])
      (draw st_divider drawn)) in
   match first_url_if_true images with
   | None => then_
   | Some first_url =>
       val url := first_url in
       draw (st_image [Str url] None) then_
   end).

Definition NO_TITLE : string := "제목 없음".

Definition NO_DATE : string := "정보 없음".

Definition MOVIE_DATE : string := "개봉일: ".

Definition MOVIE_RATING : string := " | 평점: ⭐ ".

Definition POSTER_BASE : string := "https://image.tmdb.org/t/p/w500".

(** The body of [for movie in sorted_movies[:5]]. *)
Definition render_movie (movie : pyval) : Drawn :=
  val title := dict_get movie "title" (VStr NO_TITLE) in
  draw (st_markdown [Lit "**"; Str title; Lit "**"])
  (val poster := dict_get movie "poster_path" VNone in
   let then_ :=
     val release_date := dict_get movie "release_date" (VStr NO_DATE) in
     val vote_average := dict_get movie "vote_average" (VNum 0) in
     val _ := format_1f vote_average in
     draw (st_caption [Lit MOVIE_DATE; Str release_date; Lit MOVIE_RATING;
                       Fixed1 vote_average])
     (draw st_divider drawn) in
   if truthy poster then
     val poster_path := getitem movie "poster_path" in
     draw (st_image [Lit POSTER_BASE; Str poster_path] None) then_
   else then_).

(** ** The two columns (lines 129-174) *)

(** One step of a run of the script: a call to a service, or a widget. *)
Inductive Step : Type :=
| Call (ev : Event)
| Draw (w : Widget).

Definition is_call (s : Step) : bool :=
  match s with
  | Call _ => true
  | Draw _ => false
  end.

(** The calls to the services among the steps of a run. *)
Definition calls (steps : list Step) : list Step := filter is_call steps.

(** An event of a finder as a step of the run: a call, or a notice. *)
Definition step_of (ev : Event) : Step :=
  match ev with
  | Shown el => Draw (element el)
  | _ => Call ev
  end.

(** [for record in records: render(record)]: the cards in order, up to the
    first exception. *)
Fixpoint render_each (render : pyval -> Drawn) (records : list pyval)
  : Drawn :=
  match records with
  | [] => drawn
  | record :: rest =>
      match render record with
      | (widgets, Some e) => (widgets, Some e)
      | (widgets, None) =>
          (widgets ++ fst (render_each render rest),
           snd (render_each render rest))
      end
  end.

(** What a cards loop leaves: nothing, or its exception. *)
Definition ended_by (cards : Drawn) : outcome unit :=
  match snd cards with
  | Some e => Raise e
  | None => Ok tt
  end.

(** The column [col1] (lines 133-153): subheader, finder, then the notice
    and the cards of the albums, or the notice that there is none.  Its
    steps, the cache it leaves, and the exception that ended it, if any. *)
Definition album_column (env : Env) (cache : Cache) (month day : Z)
  (sp : Spotify) : outcome unit * list Step * Cache :=
  let head := Draw (element (st_subheader (album_subheader month day))) in
  match cached_get_spotify_releases env cache month day sp with
  | (Raise e, evs, cache') => (Raise e, head :: map step_of evs, cache')
  | (Ok albums, evs, cache') =>
      if truthy (VList albums) then
        let success := Draw (element (st_success MSG_ALBUMS_FOUND)) in
        match shown_albums albums with
        | Raise e =>
            (Raise e, head :: map step_of evs ++ [success], cache')
        | Ok top =>
            let cards := render_each render_album top in
            (ended_by cards,
             head :: map step_of evs ++ success :: map Draw (fst cards),
             cache')
        end
      else
        (Ok tt,
         head :: map step_of evs ++ [Draw (element (st_info MSG_NO_ALBUMS))],
         cache')
  end.

(** The column [col2] (lines 156-174): subheader, finder, then the notice
    and the cards of the films, or the notice that there is none. *)
Definition movie_column (env : Env) (cache : Cache) (month day : Z)
  (tmdb_api_key : option string) : outcome unit * list Step * Cache :=
  let head := Draw (element (st_subheader (movie_subheader month day))) in
  match cached_get_movie_recommendations env cache month day tmdb_api_key with
  | (Raise e, evs, cache') => (Raise e, head :: map step_of evs, cache')
  | (Ok movies, evs, cache') =>
      if truthy (VList movies) then
        let success := Draw (element (st_success MSG_MOVIES_FOUND)) in
        match shown_movies movies with
        | Raise e =>
            (Raise e, head :: map step_of evs ++ [success], cache')
        | Ok top =>
            let cards := render_each render_movie top in
            (ended_by cards,
             head :: map step_of evs ++ success :: map Draw (fst cards),
             cache')
        end
      else
        (Ok tt,
         head :: map step_of evs ++ [Draw (element (st_info MSG_NO_MOVIES))],
         cache')
  end.

(** The submitted branch once the credentials are read (lines 129-174): the
    album column, then the film column; an exception ends the run. *)
Definition submitted_page (env : Env) (cache : Cache) (month day : Z)
  (sp : Spotify) (tmdb_api_key : option string)
  : outcome unit * list Step * Cache :=
  match album_column env cache month day sp with
  | (Raise e, steps, cache') => (Raise e, steps, cache')
  | (Ok _, steps, cache') =>
      let '(r, steps', cache'') :=
        movie_column env cache' month day tmdb_api_key in
      (r, steps ++ steps', cache'')
  end.

(** ** The secrets (lines 117-127) *)

(** [.streamlit/secrets.toml] as the script expects it: sections of named
    strings (other kinds of values are left out); [None] when there is no
    such file. *)
Definition Secrets : Type := option (list (string * list (string * string))).

(** What the script finds when it starts: the secrets, the date, and what
    [spotipy.Spotify(auth_manager=SpotifyClientCredentials(client_id,
    client_secret))] gives for a pair of credentials. *)
Record Host : Type := {
  secrets : Secrets;
  today : Datetime.t;
  connect : string -> string -> outcome Spotify
}.

(** The three lookups of lines 118-120: nothing when one of them raises
    [KeyError]. *)
Definition read_keys (root : list (string * list (string * string)))
  : option (string * string * string) :=
  tmdb ← assoc "tmdb" root;
  tmdb_api_key ← assoc "api_key" tmdb;
  spotify ← assoc "spotify" root;
  spotify_client_id ← assoc "client_id" spotify;
  spotify ← assoc "spotify" root;
  spotify_client_secret ← assoc "client_secret" spotify;
  Some (tmdb_api_key, spotify_client_id, spotify_client_secret).

(** The [try] block of lines 117-127: the key of the film service and the
    client, or nothing when [except (KeyError, FileNotFoundError)] catches
    (the script then shows the error and stops); another exception goes
    through. *)
Definition load_credentials (host : Host) : outcome (option (string * Spotify)) :=
  match secrets host with
  | None => Ok None
  | Some root =>
      match read_keys root with
      | None => Ok None
      | Some (tmdb_api_key, spotify_client_id, spotify_client_secret) =>
          match connect host spotify_client_id spotify_client_secret with
          | Ok sp => Ok (Some (tmdb_api_key, sp))
          | Raise KeyError => Ok None
          | Raise e => Raise e
          end
      end
  end.

(** ** The form (lines 106-112) and the script *)

(** [list(range(start, stop))] *)
Definition range_up (start stop : Z) : list Z :=
  map (fun i => start + Z.of_nat i) (seq 0 (Z.to_nat (stop - start))).

(** What the visitor did: the place of the option picked in each list, if
    any was, and whether the button was pressed. *)
Record Browser : Type := {
  month_pick : option nat;
  day_pick : option nat;
  pressed : bool
}.

(** The value of [st.selectbox(label, options, index=index)]: the option
    picked, the option at [index] when none was; nothing when the widget
    raises, on an index or a pick outside the options. *)
Definition selected (options : list Z) (index : Z) (pick : option nat)
  : option Z :=
  if (0 <=? index) && (index <? Z.of_nat (length options)) then
    match pick with
    | Some i => options !! i
    | None => options !! Z.to_nat index
    end
  else None.

Definition PAGE_TITLE : string := "생일 발매 K-Pop & 영화".

Definition PAGE_ICON : string := "📀".

Definition TITLE : string := "📀 당신의 생일, K-Pop & 영화 발매 뉴스".

Definition INTRO : string :=
  "생일(월/일)을 입력하면, 역대 당신의 생일에 발매된 K-Pop 앨범과 영화들을 찾아드립니다!".

Definition FORM_HEADER : string := "🎂 생일 입력".

Definition MONTH_LABEL : string := "**월(Month)**".

Definition DAY_LABEL : string := "**일(Day)**".

Definition BUTTON_LABEL : string := "🎉 내 생일 뉴스 확인하기!".

Definition MSG_NO_KEYS : string :=
  "API 키를 찾을 수 없습니다. `.streamlit/secrets.toml` 파일에 TMDb와 Spotify 키를 모두 설정해주세요.".

Definition MSG_LANDING : string :=
  "⬅️ 왼쪽 사이드바에서 생일을 선택하고 버튼을 눌러주세요!".

Definition LANDING_IMAGE : string :=
  "https://images.pexels.com/photos/374624/pexels-photo-374624.jpeg".

Definition LANDING_LEGEND : string :=
  "당신의 생일은 어떤 멋진 콘텐츠들과 함께했을까요?".

(** How a run of the script ends: at its last line, at [st.stop()], on an
    exception, or on a widget that raises. *)
Inductive Ending : Type :=
| Completed
| Stopped
| Failed (e : exn)
| WidgetFailed.

(** Lines 14-18 and 101-107: what every run draws first. *)
Definition top_of_page : list Step :=
  [ Draw (st_set_page_config PAGE_TITLE PAGE_ICON "wide");
    Draw (st_title TITLE);
    Draw (st_markdown [Lit INTRO]);
    Draw (st_markdown [Lit "---"]);
    Draw (st_header FORM_HEADER) ].

Definition month_box (host : Host) : Widget :=
  st_selectbox MONTH_LABEL (range_up 1 13) (Datetime.month (today host) - 1).

Definition day_box (host : Host) : Widget :=
  st_selectbox DAY_LABEL (range_up 1 32) (Datetime.day (today host) - 1).

(** Lines 108-112: the month and the day the form gives. *)
Definition form (host : Host) (browser : Browser) : option (Z * Z) :=
  month ← selected (range_up 1 13) (Datetime.month (today host) - 1)
            (month_pick browser);
  day ← selected (range_up 1 32) (Datetime.day (today host) - 1)
          (day_pick browser);
  Some (month, day).

(** One run of the script, from its first line: how it ends, its steps, and
    the cache it leaves.  (Columns and spinners lay widgets out and draw
    nothing of their own.) *)
Definition script (host : Host) (env : Env) (browser : Browser)
  (cache : Cache) : Ending * list Step * Cache :=
  match selected (range_up 1 13) (Datetime.month (today host) - 1)
          (month_pick browser) with
  | None => (WidgetFailed, top_of_page, cache)
  | Some month =>
      match selected (range_up 1 32) (Datetime.day (today host) - 1)
              (day_pick browser) with
      | None => (WidgetFailed, top_of_page ++ [Draw (month_box host)], cache)
      | Some day =>
          let first :=
            top_of_page
            ++ [ Draw (month_box host); Draw (day_box host);
                 Draw (st_form_submit_button BUTTON_LABEL) ] in
          if pressed browser then
            match load_credentials host with
            | Raise e => (Failed e, first, cache)
            | Ok None =>
                (Stopped, first ++ [Draw (element (st_error MSG_NO_KEYS))],
                 cache)
            | Ok (Some (tmdb_api_key, sp)) =>
                let '(r, steps, cache') :=
                  submitted_page env cache month day sp (Some tmdb_api_key) in
                (match r with Ok _ => Completed | Raise e => Failed e end,
                 first ++ steps, cache')
            end
          else
            (Completed,
             first ++ [ Draw (element (st_info MSG_LANDING));
                        Draw (st_image [Lit LANDING_IMAGE]
                                (Some LANDING_LEGEND)) ],
             cache)
      end
  end.

(** ** Vocabulary of the statements on the script *)

(** The secret [name] of the table [table], if the file has it. *)
Definition secret (host : Host) (table name : string) : option string :=
  root ← secrets host;
  fields ← assoc table root;
  assoc name fields.

Definition steps_of (run : Ending * list Step * Cache) : list Step :=
  snd (fst run).

Definition cache_of (run : Ending * list Step * Cache) : Cache := snd run.

(** What every run with a working form draws before it tests [submitted]. *)
Definition form_drawn (host : Host) : list Step :=
  top_of_page
  ++ [ Draw (month_box host); Draw (day_box host);
       Draw (st_form_submit_button BUTTON_LABEL) ].

(** ** Sample data for the examples on the script *)

(** A client made of the credentials it is given. *)
Definition connect_ok (id secret : string) : outcome Spotify :=
  Ok {| client_id := id; client_secret := secret |}.

(** On 1 March 2017, with the three secrets of [sp0] and [env_stub]. *)
Definition host_stub : Host := {|
  secrets :=
    Some [ ("tmdb", [("api_key", "KEY")]);
           ("spotify", [("client_id", "id"); ("client_secret", "secret")]) ];
  today := Datetime.mk 2017 3 1;
  connect := connect_ok
|}.

(** The same day, with a secrets file that has no [client_secret]. *)
Definition host_no_secret : Host := {|
  secrets :=
    Some [ ("tmdb", [("api_key", "KEY")]);
           ("spotify", [("client_id", "id")]) ];
  today := Datetime.mk 2017 3 1;
  connect := connect_ok
|}.

(** A visitor who opens the page. *)
Definition arrives : Browser :=
  {| month_pick := None; day_pick := None; pressed := false |}.

(** A visitor who presses the button on the date the form proposes. *)
Definition presses : Browser :=
  {| month_pick := None; day_pick := None; pressed := true |}.

(** A visitor who picks the second month and the thirtieth day. *)
Definition picks_30_february : Browser :=
  {| month_pick := Some 1%nat; day_pick := Some 29%nat; pressed := true |}.

(** ** Vocabulary of the statements on the cards *)

(** An artist with a name that is a string. *)
Definition named (artist : pyval) : Prop :=
  exists s, getitem artist "name" = Ok (VStr s).

(** An image with an address that is a string. *)
Definition addressed (image : pyval) : Prop :=
  exists url, getitem image "url" = Ok (VStr url).

(** An album as the music service documents it, as far as its card reads
    it: artists with their names, a name, images with their [url], a
    release date and the link to the album. *)
Definition album_document (r : pyval) : Prop :=
  (exists artists,
      getitem r "artists" = Ok (VList artists) /\ Forall named artists)
  /\ (exists name, getitem r "name" = Ok name)
  /\ (exists images,
        getitem r "images" = Ok (VList images) /\ Forall addressed images)
  /\ (exists release_date, getitem r "release_date" = Ok release_date)
  /\ (exists external_urls spotify,
        getitem r "external_urls" = Ok external_urls
        /\ getitem external_urls "spotify" = Ok spotify).

(** The card is whole: drawn to its divider, without an exception. *)
Definition whole (card : Drawn) : Prop :=
  snd card = None /\ exists before, fst card = before ++ [st_divider].

(** ** Sample data for the examples on the cards *)

(** An album with all that its card reads. *)
Definition whole_album (id date : string) : pyval :=
  VDict [ ("id", VStr id);
          ("name", VStr "Album");
          ("artists", VList [VDict [("name", VStr "Artist")]]);
          ("images", VList [VDict [("url", VStr "https://i.scdn.co/image/1")]]);
          ("release_date", VStr date);
          ("release_date_precision", VStr "day");
          ("external_urls",
           VDict [("spotify", VStr "https://open.spotify.com/album/1")]) ].

Definition two_whole_albums : list pyval :=
  [whole_album "w1" "2016-03-01"; whole_album "w2" "2015-03-01"].

Definition two_movies : list pyval := [movie 1 (72 # 10); movie 2 9].

(** ** Vocabulary of the statements on the text of a request *)

(** The date of a request: [f"{year}-{month:02d}-{day:02d}"]. *)
Definition date_text (year month day : Z) : string :=
  str_of_int year +:+ "-" +:+ format_02d month +:+ "-" +:+ format_02d day.

(** What the pattern reads after the year: the month and the day. *)
Definition month_day_match (s : list ascii) : option (Z * Z * list ascii) :=
  Datetime.literal "-"
    (Datetime.alternation Datetime.alts_m (fun m =>
       Datetime.literal "-"
         (Datetime.alternation Datetime.alts_d (fun d rest =>
            Some (m, d, rest))))) s.

(** The text of the year is four digits that read as the year. *)
Definition four_digit_year (year : Z) : bool :=
  match list_ascii_of_string (str_of_int year) with
  | [a; b; c; d] =>
      Datetime.is_digit a && Datetime.is_digit b && Datetime.is_digit c
      && Datetime.is_digit d
      && (1000 * Datetime.digit_value a + 100 * Datetime.digit_value b
          + 10 * Datetime.digit_value c + Datetime.digit_value d =? year)
  | _ => false
  end.

(** The text of the month and the day reads as that month and day. *)
Definition month_day_reads (month day : Z) : bool :=
  match month_day_match
          (list_ascii_of_string
             ("-" +:+ format_02d month +:+ "-" +:+ format_02d day)) with
  | Some (m, d, []) => (m =? month) && (d =? day)
  | _ => false
  end.

(** ** Vocabulary of the statements on the years searched *)

(** The [try] body of [year], entered with the list [albums_found], runs to
    its end and leaves more than five records: the test of the length is
    made and the loop stops. *)
Definition stops_at (env : Env) (month day : Z) (sp_client : Spotify)
  (albums_found : list pyval) (year : Z) : bool :=
  match try_year env month day sp_client year albums_found with
  | (found, None) => (5 <? length found)%nat
  | (_, Some _) => false
  end.

(** * Properties *)

(** ** The year sampler *)

Lemma range_down_length start stop :
  length (range_down start stop) = Z.to_nat (start - stop).
Proof. unfold range_down. now rewrite length_map, length_seq. Qed.

Lemma range_down_In start stop y :
  In y (range_down start stop) <-> stop < y <= start.
Proof.
  unfold range_down. rewrite in_map_iff. split.
  - intros (i & <- & Hi). apply in_seq in Hi. lia.
  - intros Hy. exists (Z.to_nat (start - y)). split; [lia|].
    apply in_seq. lia.
Qed.

Lemma range_down_NoDup start stop : NoDup (range_down start stop).
Proof.
  unfold range_down. apply Finite.Injective_map_NoDup.
  - intros i j Hij. lia.
  - apply seq_NoDup.
Qed.

(** Taking the element at [j] out of a pool by moving the last element into
    its place leaves the other elements, in some order. *)
Lemma vacate_Permutation {A : Type} (pool : list A) (j : nat) (x y : A) :
  pool !! j = Some x ->
  pool !! (length pool - 1)%nat = Some y ->
  Permutation (x :: take (length pool - 1) (<[j := y]> pool)) pool.
Proof.
  intros Hj Hlast.
  destruct (list_elem_of_split_length _ _ _ Hlast) as (init & tl & -> & Hlen).
  rewrite length_app in Hlen. simpl in Hlen.
  assert (tl = []) as -> by (destruct tl; [reflexivity | simpl in Hlen; lia]).
  rewrite length_app. simpl.
  replace (length init + 1 - 1)%nat with (length init) by lia.
  destruct (decide (j < length init)%nat) as [Hlt | Hge].
  - rewrite insert_app_l by exact Hlt.
    rewrite take_app_length' by now rewrite length_insert.
    rewrite lookup_app_l in Hj by exact Hlt.
    destruct (list_elem_of_split_length _ _ _ Hj) as (a & b & -> & ->).
    rewrite insert_app_r_alt by lia.
    replace (length a - length a)%nat with 0%nat by lia. simpl.
    rewrite <- app_assoc. simpl.
    transitivity (x :: a ++ b ++ [y]).
    + apply perm_skip, Permutation_app_head, Permutation_cons_append.
    + apply Permutation_middle.
  - assert (j = length init) as ->.
    { apply lookup_lt_Some in Hj. rewrite length_app in Hj. simpl in Hj. lia. }
    rewrite list_lookup_middle in Hj by reflexivity. injection Hj as <-.
    rewrite list_insert_id by (now apply list_lookup_middle).
    rewrite take_app_length.
    apply Permutation_cons_append.
Qed.

(** The selection loop returns [k] elements which, with what stays in the
    pool, are the pool. *)
Lemma select_Permutation {A : Type} (rng : Random.generator) (k : nat) :
  forall (i : nat) (pool : list A),
    (k <= length pool)%nat ->
    length (Random.select rng i pool k) = k
    /\ exists rest, Permutation (Random.select rng i pool k ++ rest) pool.
Proof.
  induction k as [| k IH]; intros i pool Hk; simpl.
  - split; [reflexivity | exists pool; reflexivity].
  - set (m := length pool) in *.
    assert (rng i mod m < m)%nat as Hj by (apply Nat.mod_upper_bound; lia).
    destruct (lookup_lt_is_Some_2 pool _ Hj) as [x Hx].
    destruct (lookup_lt_is_Some_2 pool (m - 1)%nat ltac:(lia)) as [y Hy].
    rewrite Hx, Hy.
    pose proof (vacate_Permutation pool _ x y Hx Hy) as Hperm.
    fold m in Hperm.
    destruct (IH (S i) (take (m - 1) (<[(rng i mod m)%nat := y]> pool)))
      as (Hlen & rest & Hrest).
    { rewrite length_take, length_insert. fold m. lia. }
    split; [simpl; now rewrite Hlen |].
    exists rest. simpl. rewrite Hrest. exact Hperm.
Qed.

Lemma sample_Ok {A : Type} (rng : Random.generator) (population : list A) (k : nat) :
  (k <= length population)%nat ->
  exists picked rest,
    Random.sample rng population k = Ok picked
    /\ length picked = k
    /\ Permutation (picked ++ rest) population.
Proof.
  intros Hk. unfold Random.sample.
  destruct (Nat.leb_spec k (length population)) as [_ | Hgt]; [| lia].
  destruct (select_Permutation rng k 0 population Hk) as (Hlen & rest & Hperm).
  eauto.
Qed.

(** The sampling of the years never raises. *)
Lemma sampled_years_returns (env : Env) :
  exists years, sampled_years env = Ok years.
Proof.
  unfold sampled_years.
  destruct (sample_Ok (rng env) (years_to_search (now_year env))
              (Nat.min (length (years_to_search (now_year env))) 10))
    as (picked & _ & Hsample & _); [lia | eauto].
Qed.

(** C5.  The years the K-Pop finder samples: whatever the generator draws,
    sampling succeeds and yields at most ten pairwise distinct years, all in
    the inclusive range from 2001 to the current year minus one; when that
    range has fewer than ten years the sample is the whole range (in some
    order), and when it is empty the sample is empty. *)
Theorem sampled_years_bounded_distinct_in_range (env : Env) :
  (forall y, In y (years_to_search (now_year env))
             <-> 2001 <= y <= now_year env - 1)
  /\ exists years,
       sampled_years env = Ok years
       /\ length years = Nat.min (length (years_to_search (now_year env))) 10
       /\ (length years <= 10)%nat
       /\ NoDup years
       /\ Forall (fun y => 2001 <= y <= now_year env - 1) years
       /\ ((length (years_to_search (now_year env)) < 10)%nat ->
           Permutation years (years_to_search (now_year env)))
       /\ (now_year env - 1 < 2001 -> years = []).
Proof.
  set (cy := now_year env).
  assert (Hrange : forall y, In y (years_to_search cy) <-> 2001 <= y <= cy - 1).
  { intros y. unfold years_to_search. rewrite range_down_In. lia. }
  split; [exact Hrange |].
  unfold sampled_years. fold cy.
  set (population := years_to_search cy) in *.
  destruct (sample_Ok (rng env) population (Nat.min (length population) 10))
    as (picked & rest & Hsample & Hlen & Hperm); [lia |].
  exists picked. split; [exact Hsample |].
  assert (Hnodup : NoDup (picked ++ rest)).
  { apply (Permutation_NoDup (Permutation_sym Hperm)).
    apply range_down_NoDup. }
  split; [exact Hlen |]. split; [lia |].
  split; [exact (NoDup_app_remove_r _ _ Hnodup) |].
  split.
  { apply Forall_forall. intros y Hy. apply Hrange.
    apply (Permutation_in _ Hperm). apply in_or_app. now left. }
  split.
  - intros Hsmall.
    pose proof (Permutation_length Hperm) as Hl. rewrite length_app in Hl.
    assert (rest = []) as -> by (destruct rest; [reflexivity | simpl in Hl; lia]).
    now rewrite app_nil_r in Hperm.
  - intros Hempty.
    assert (length population = 0)%nat as H0.
    { unfold population, years_to_search. rewrite range_down_length. lia. }
    destruct picked; [reflexivity | simpl in Hlen; lia].
Qed.

(** ** The K-Pop finder keeps matching records only *)

Lemma eq_str_true v s : eq_str v s = true -> v = VStr s.
Proof.
  destruct v; simpl; try discriminate.
  intros H. apply String.eqb_eq in H. now subst.
Qed.

Lemma album_matches_true month day album :
  album_matches month day album = Ok true -> released_on month day album.
Proof.
  unfold album_matches, released_on, mbind, outcome_bind.
  destruct (getitem album "release_date_precision") as [precision |]; [| discriminate].
  destruct (eq_str precision "day") eqn:Hday; [| discriminate].
  apply eq_str_true in Hday. subst precision.
  destruct (getitem album "release_date") as [text |]; [| discriminate].
  destruct (Datetime.strptime text) as [date |] eqn:Hdate; [| discriminate].
  intros H. injection H as H. apply andb_prop in H. destruct H as [Hm Hd].
  apply Z.eqb_eq in Hm, Hd.
  split; [reflexivity |]. exists text, date. now repeat split.
Qed.

Lemma scan_albums_Forall (P : pyval -> Prop) month day items :
  (forall album, album_matches month day album = Ok true -> P album) ->
  forall albums_found,
    Forall P albums_found ->
    Forall P (fst (scan_albums month day items albums_found)).
Proof.
  intros HP. induction items as [| album rest IH]; intros acc Hacc; simpl.
  - exact Hacc.
  - destruct (album_matches month day album) as [[|] |] eqn:Hm; simpl.
    + apply IH. apply Forall_app. split; [exact Hacc |].
      constructor; [now apply HP | constructor].
    + now apply IH.
    + exact Hacc.
Qed.

Lemma try_year_Forall (P : pyval -> Prop) env month day sp year :
  (forall album, album_matches month day album = Ok true -> P album) ->
  forall albums_found,
    Forall P albums_found ->
    Forall P (fst (try_year env month day sp year albums_found)).
Proof.
  intros HP acc Hacc. unfold try_year.
  destruct (search_year env sp year); simpl.
  - now apply scan_albums_Forall.
  - exact Hacc.
Qed.

Lemma year_loop_Forall (P : pyval -> Prop) env month day sp years :
  (forall album, album_matches month day album = Ok true -> P album) ->
  forall albums_found out evs,
    Forall P albums_found ->
    year_loop env month day sp years albums_found = (Ok out, evs) ->
    Forall P out.
Proof.
  intros HP. induction years as [| year rest IH]; intros acc out evs Hacc; simpl.
  - intros H. injection H as <- _. exact Hacc.
  - pose proof (try_year_Forall P env month day sp year HP acc Hacc) as Hfound.
    destruct (try_year env month day sp year acc) as [found [e |]]; simpl in Hfound.
    + destruct (is_Exception e); [| discriminate].
      unfold emit.
      destruct (year_loop env month day sp rest found) as [r evs'] eqn:Hloop.
      simpl. intros H. injection H as -> _. eapply IH; eauto.
    + destruct (5 <? length found)%nat.
      * intros H. injection H as <- _. exact Hfound.
      * unfold emit.
        destruct (year_loop env month day sp rest found) as [r evs'] eqn:Hloop.
        simpl. intros H. injection H as -> _. eapply IH; eauto.
Qed.

(** C1.  Whatever the month and the day asked for (1 to 12 and 1 to 31
    among them), every record the K-Pop finder returns has
    [release_date_precision] equal to the string day and a [release_date]
    that parses to a date with that month and that day; a record that fails
    either test is in no returned list. *)
Theorem get_spotify_releases_only_exact_day_matches
  (env : Env) (month day : Z) (sp_client : Spotify)
  (albums : list pyval) (evs : list Event) :
  get_spotify_releases env month day sp_client = (Ok albums, evs) ->
  Forall (released_on month day) albums.
Proof.
  unfold get_spotify_releases.
  destruct (sampled_years env) as [years |]; [| discriminate].
  intros H.
  eapply (year_loop_Forall (released_on month day)); eauto.
  apply album_matches_true.
Qed.

(** In [env_stub] the finder returns the seven albums of 1 March 2016. *)
Lemma get_spotify_releases_only_exact_day_matches_witness :
  Forall (released_on 3 1) seven_albums.
Proof.
  eapply (get_spotify_releases_only_exact_day_matches env_stub 3 1 sp0).
  vm_compute. reflexivity.
Defined.

(** ** How a year ends and what it appends *)

Lemma getitem_raises v k e : getitem v k = Raise e -> is_Exception e = true.
Proof.
  destruct v; simpl; try (raised; reflexivity).
  destruct (assoc k fields); [discriminate |].
  raised; reflexivity.
Qed.

Lemma iterate_raises v e : iterate v = Raise e -> is_Exception e = true.
Proof.
  destruct v; simpl; try discriminate; raised; reflexivity.
Qed.

Lemma strptime_raises v e :
  Datetime.strptime v = Raise e -> is_Exception e = true.
Proof.
  destruct v; simpl; try (raised; reflexivity).
  unfold Datetime.strptime_str.
  destruct (Datetime.regex_match _) as [[[[y m] d] [| c rest]] |];
    try (raised; reflexivity).
  destruct (Datetime.valid_date y m d); [discriminate |].
  raised; reflexivity.
Qed.

Lemma album_matches_raises month day album e :
  album_matches month day album = Raise e -> is_Exception e = true.
Proof.
  unfold album_matches, mbind, outcome_bind.
  destruct (getitem album "release_date_precision") as [precision |] eqn:Hp.
  - destruct (eq_str precision "day"); [| discriminate].
    destruct (getitem album "release_date") as [text |] eqn:Ht.
    + destruct (Datetime.strptime text) as [date |] eqn:Hd; [discriminate |].
      raised. eapply strptime_raises; eauto.
    + raised. eapply getitem_raises; eauto.
  - raised. eapply getitem_raises; eauto.
Qed.

Lemma scan_albums_raises month day items :
  forall albums_found found e,
    scan_albums month day items albums_found = (found, Some e) ->
    is_Exception e = true.
Proof.
  induction items as [| album rest IH]; intros acc found e; simpl.
  - discriminate.
  - destruct (album_matches month day album) as [[|] |] eqn:Hm; eauto.
    intros H; injection H as _ <-. eapply album_matches_raises; eauto.
Qed.

(** The inner loop only appends: its result is the list it started from
    followed by what it appends to the empty list. *)
Lemma scan_albums_app month day items :
  forall albums_found,
    scan_albums month day items albums_found
    = (albums_found ++ fst (scan_albums month day items []),
       snd (scan_albums month day items [])).
Proof.
  induction items as [| album rest IH]; intros acc; simpl.
  - now rewrite app_nil_r.
  - destruct (album_matches month day album) as [[|] |]; simpl.
    + rewrite (IH (acc ++ [album])), (IH [album]). simpl.
      now rewrite <- app_assoc.
    + apply IH.
    + now rewrite app_nil_r.
Qed.

Lemma try_year_app env month day sp year albums_found :
  try_year env month day sp year albums_found
  = (albums_found ++ year_matches env month day sp year,
     snd (try_year env month day sp year [])).
Proof.
  unfold year_matches, try_year.
  destruct (search_year env sp year); simpl.
  - apply scan_albums_app.
  - now rewrite app_nil_r.
Qed.

(** An exception that ends the [try] body of a year comes from the client or
    is one of the built-in [Exception]s. *)
Lemma try_year_raises env month day sp year albums_found found e :
  try_year env month day sp year albums_found = (found, Some e) ->
  spotify_search env sp (search_call year) = Raise e \/ is_Exception e = true.
Proof.
  unfold try_year, search_year, mbind, outcome_bind.
  destruct (spotify_search env sp (search_call year)) as [results |] eqn:Hs.
  - destruct (getitem results "albums") as [albums |] eqn:Ha.
    + destruct (getitem albums "items") as [items |] eqn:Hi.
      * destruct (iterate items) as [l |] eqn:Hl.
        -- intros H. right. eapply scan_albums_raises; eauto.
        -- intros H; injection H as _ <-. right. eapply iterate_raises; eauto.
      * intros H; injection H as _ <-. right. eapply getitem_raises; eauto.
    + intros H; injection H as _ <-. right. eapply getitem_raises; eauto.
  - intros H; injection H as _ <-. now left.
Qed.

Lemma scan_albums_split month day before after :
  forall albums_found,
    scan_albums month day (before ++ after) albums_found
    = match scan_albums month day before albums_found with
      | (found, None) => scan_albums month day after found
      | stopped => stopped
      end.
Proof.
  induction before as [| album rest IH]; intros acc; simpl.
  - reflexivity.
  - destruct (album_matches month day album) as [[|] |]; auto.
Qed.

(** When the inner loop reaches the end of the items, it has appended every
    item that passes the test, in order. *)
Lemma scan_albums_complete month day items :
  forall albums_found found,
    scan_albums month day items albums_found = (found, None) ->
    found = albums_found ++ filter (is_match month day) items.
Proof.
  induction items as [| album rest IH]; intros acc found; simpl.
  - intros H. injection H as <-. now rewrite app_nil_r.
  - unfold is_match at 1.
    destruct (album_matches month day album) as [[|] |].
    + intros H. apply IH in H. subst found. now rewrite <- app_assoc.
    + apply IH.
    + discriminate.
Qed.

(** The list a run returns starts with the list the loop started from. *)
Lemma year_loop_extends env month day sp years :
  forall albums_found out evs,
    year_loop env month day sp years albums_found = (Ok out, evs) ->
    exists more, out = albums_found ++ more.
Proof.
  induction years as [| year rest IH]; intros acc out evs; simpl.
  - intros H. injection H as <- _. exists []. now rewrite app_nil_r.
  - rewrite try_year_app.
    set (found := acc ++ year_matches env month day sp year).
    assert (Hnext : emit (Searched sp (search_call year))
                      (year_loop env month day sp rest found) = (Ok out, evs) ->
                    exists more, out = acc ++ more).
    { unfold emit.
      destruct (year_loop env month day sp rest found) as [r evs'] eqn:Hloop.
      simpl. intros H. injection H as -> _.
      destruct (IH _ _ _ Hloop) as [more ->].
      exists (year_matches env month day sp year ++ more).
      unfold found. now rewrite app_assoc. }
    destruct (snd (try_year env month day sp year [])) as [e |].
    + destruct (is_Exception e); [exact Hnext | discriminate].
    + destruct (5 <? length found)%nat; [| exact Hnext].
      intros H. injection H as <- _. now exists (year_matches env month day sp year).
Qed.

(** ** Early termination *)


(** ** A date that does not parse *)

(** C10.  When the items of a year hold an album dated to the day whose
    [release_date] makes [strptime] raise, the albums after it are not
    looked at, the matches appended before it stay in the list, and the loop
    goes on with the next sampled year, whose result keeps those matches. *)
Theorem unparsable_date_ends_its_year_only
  (env : Env) (month day : Z) (sp_client : Spotify) (year : Z)
  (rest : list Z) (albums_found found before after : list pyval)
  (bad text : pyval) (e : exn) :
  search_year env sp_client year = Ok (before ++ bad :: after) ->
  scan_albums month day before albums_found = (found, None) ->
  getitem bad "release_date_precision" = Ok (VStr "day") ->
  getitem bad "release_date" = Ok text ->
  Datetime.strptime text = Raise e ->
  found = albums_found ++ filter (is_match month day) before
  /\ try_year env month day sp_client year albums_found = (found, Some e)
  /\ year_loop env month day sp_client (year :: rest) albums_found
     = emit (Searched sp_client (search_call year))
         (year_loop env month day sp_client rest found)
  /\ (forall out evs,
        year_loop env month day sp_client rest found = (Ok out, evs) ->
        exists more, out = found ++ more).
Proof.
  intros Hsearch Hbefore Hprecision Hdate Hparse.
  assert (Hbad : album_matches month day bad = Raise e).
  { unfold album_matches, mbind, outcome_bind.
    rewrite Hprecision. simpl. now rewrite Hdate, Hparse. }
  assert (Htry : try_year env month day sp_client year albums_found
                 = (found, Some e)).
  { unfold try_year. rewrite Hsearch, scan_albums_split, Hbefore.
    simpl. now rewrite Hbad. }
  split; [now apply scan_albums_complete |].
  split; [exact Htry |].
  split.
  - simpl. rewrite Htry.
    now rewrite (strptime_raises _ _ Hparse).
  - intros out evs. apply year_loop_extends.
Qed.

(** In [env_bad_date] the album d1 of 2015 is kept, d3, which follows the
    record whose date does not parse, is not, and the search goes on through
    the nine other sampled years. *)
Lemma unparsable_date_ends_its_year_only_witness :
  get_spotify_releases env_bad_date 3 1 sp0
  = (Ok [album "d1" "2015-03-01" "day"; album "e1" "2016-03-01" "day"],
     searches sp0 [2015; 2016; 2002; 2003; 2004; 2005; 2006; 2007; 2008; 2009]).
Proof.
  unfold get_spotify_releases.
  replace (sampled_years env_bad_date)
    with (Ok [2015; 2016; 2002; 2003; 2004; 2005; 2006; 2007; 2008; 2009])
    by (vm_compute; reflexivity).
  rewrite (proj1 (proj2 (proj2
    (unparsable_date_ends_its_year_only env_bad_date 3 1 sp0 2015
       [2016; 2002; 2003; 2004; 2005; 2006; 2007; 2008; 2009] []
       [album "d1" "2015-03-01" "day"]
       [album "d1" "2015-03-01" "day"] [album "d3" "2015-03-01" "day"]
       (album "d2" "March 2015" "day") (VStr "March 2015") ValueError
       ltac:(vm_compute; reflexivity) ltac:(vm_compute; reflexivity)
       ltac:(vm_compute; reflexivity) ltac:(vm_compute; reflexivity)
       ltac:(vm_compute; reflexivity))))).
  vm_compute. reflexivity.
Defined.

(** ** Failing years *)

Lemma try_year_client_raises env month day sp year albums_found e :
  spotify_search env sp (search_call year) = Raise e ->
  try_year env month day sp year albums_found = (albums_found, Some e).
Proof.
  intros H. unfold try_year, search_year, mbind, outcome_bind. now rewrite H.
Qed.

Lemma discover_request_raises env api_key year month day e :
  requests_get env (discover_url api_key year month day) 10 = Raise e ->
  discover env api_key year month day = Raise e.
Proof.
  intros H. unfold discover, mbind, outcome_bind. now rewrite H.
Qed.

Lemma discover_error_status env api_key year month day response :
  requests_get env (discover_url api_key year month day) 10 = Ok response ->
  400 <= status_code response < 600 ->
  discover env api_key year month day = Raise (RequestException HTTPError).
Proof.
  intros H Hstatus. unfold discover, mbind, outcome_bind, raise_for_status.
  rewrite H.
  destruct (Z.leb_spec 400 (status_code response)); [| lia].
  destruct (Z.ltb_spec (status_code response) 600); [| lia].
  reflexivity.
Qed.

(** Under the interface of the film service the [try] body raises request
    errors only. *)
Lemma discover_conforms env api_key year month day e :
  conforms (requests_get env (discover_url api_key year month day) 10) = true ->
  discover env api_key year month day = Raise e ->
  is_RequestException e = true.
Proof.
  unfold conforms, discover, mbind, outcome_bind.
  destruct (requests_get env _ 10) as [response | e0].
  - destruct (raise_for_status response) as [[] | e1] eqn:Hstatus.
    + destruct (json response) as [data | e2].
      * destruct data as [| b | n | s | l | fields]; try discriminate.
        simpl. destruct (assoc "results" fields) as [v |]; simpl.
        -- destruct (truthy v); simpl; [| discriminate].
           destruct v; simpl; discriminate.
        -- discriminate.
      * intros Hc H. injection H as <-. exact Hc.
    + intros _ H. injection H as <-.
      unfold raise_for_status in Hstatus.
      destruct ((400 <=? status_code response) && (status_code response <? 600));
        [| discriminate].
      now injection Hstatus as <-.
  - intros Hc H. injection H as <-. exact Hc.
Qed.

(** A run of the film loop in which every [try] body that raises raises a
    request error: every year is requested and the list is the starting list
    followed by the results of each year. *)
Lemma movie_loop_returns env api_key month day years :
  (forall y e, In y years ->
     discover env api_key y month day = Raise e -> is_RequestException e = true) ->
  forall movies,
    movie_loop env api_key month day years movies
    = (Ok (movies ++ flat_map (year_results env api_key month day) years),
       requests api_key month day years).
Proof.
  induction years as [| year rest IH]; intros Hfail movies; simpl.
  - now rewrite app_nil_r.
  - assert (Hrest : forall y e, In y rest ->
              discover env api_key y month day = Raise e ->
              is_RequestException e = true) by (intros; eapply Hfail; simpl; eauto).
    unfold year_results at 1.
    destruct (discover env api_key year month day) as [results | e] eqn:Hd.
    + rewrite (IH Hrest). unfold emit. simpl. now rewrite <- app_assoc.
    + rewrite (Hfail year e (or_introl eq_refl) Hd).
      rewrite (IH Hrest). reflexivity.
Qed.

(** The film loop stops before the last year only on an exception that is
    not a request error. *)
Lemma movie_loop_stops_on_crash_only env api_key month day years :
  forall movies,
  exists r queried rest,
    movie_loop env api_key month day years movies
    = (r, requests api_key month day queried)
    /\ years = queried ++ rest
    /\ (rest = [] \/ exists e, r = Raise e /\ is_RequestException e = false).
Proof.
  induction years as [| year more IH]; intros movies; simpl.
  - exists (Ok movies), [], []. auto.
  - destruct (discover env api_key year month day) as [results | e].
    + destruct (IH (movies ++ results)) as (r & queried & rest & -> & -> & Hrest).
      exists r, (year :: queried), rest. auto.
    + destruct (is_RequestException e) eqn:He.
      * destruct (IH movies) as (r & queried & rest & -> & -> & Hrest).
        exists r, (year :: queried), rest. auto.
      * exists (Raise e), [year], more. split; [reflexivity |].
        split; [reflexivity |]. right. eauto.
Qed.

(** Under the interface of the film service the film finder returns the
    results of all its years after requesting each of them. *)
Lemma film_finder_returns env month day api_key :
  not_key api_key = false ->
  (forall year,
      In year (movie_years (now_year env)) ->
      conforms (requests_get env (discover_url api_key year month day) 10)
      = true) ->
  exists movies,
    get_movie_recommendations env month day api_key
    = (Ok movies, requests api_key month day (movie_years (now_year env))).
Proof.
  intros Hkey Hconf. unfold get_movie_recommendations. rewrite Hkey.
  rewrite movie_loop_returns; [eauto |].
  intros y e Hy. apply discover_conforms. now apply Hconf.
Qed.

(** The years the K-Pop loop searches, when the client raises nothing but
    [Exception]s: a year that is not the last one searched did not stop the
    loop, and when years are left the last one searched did. *)
Lemma year_loop_searched env month day sp years :
  (forall y e, In y years ->
     spotify_search env sp (search_call y) = Raise e -> is_Exception e = true) ->
  forall albums_found,
  exists queried rest,
    year_loop env month day sp years albums_found
    = (Ok (albums_found ++ flat_map (year_matches env month day sp) queried),
       searches sp queried)
    /\ years = queried ++ rest
    /\ (forall before year after,
          queried = before ++ year :: after ->
          after <> [] ->
          stops_at env month day sp
            (albums_found ++ flat_map (year_matches env month day sp) before)
            year = false)
    /\ (rest <> [] ->
        exists before year,
          queried = before ++ [year]
          /\ stops_at env month day sp
               (albums_found
                ++ flat_map (year_matches env month day sp) before)
               year = true).
Proof.
  induction years as [|year more IH]; intros Hclient acc.
  - exists [], []. cbn. rewrite app_nil_r.
    split; [reflexivity|]. split; [reflexivity|]. split.
    + intros [|? ?] ? ? H; discriminate H.
    + intros H. now destruct H.
  - assert (Hmore : forall y e, In y more ->
              spotify_search env sp (search_call y) = Raise e ->
              is_Exception e = true)
      by (intros; eapply Hclient; simpl; eauto).
    assert (Hgo : forall found,
               found = acc ++ year_matches env month day sp year ->
               stops_at env month day sp acc year = false ->
               year_loop env month day sp (year :: more) acc
               = emit (Searched sp (search_call year))
                   (year_loop env month day sp more found) ->
               exists queried rest,
                 year_loop env month day sp (year :: more) acc
                 = (Ok (acc ++ flat_map (year_matches env month day sp)
                                 queried),
                    searches sp queried)
                 /\ year :: more = queried ++ rest
                 /\ (forall before y after,
                       queried = before ++ y :: after ->
                       after <> [] ->
                       stops_at env month day sp
                         (acc ++ flat_map (year_matches env month day sp)
                                   before) y = false)
                 /\ (rest <> [] ->
                     exists before y,
                       queried = before ++ [y]
                       /\ stops_at env month day sp
                            (acc ++ flat_map (year_matches env month day sp)
                                      before) y = true)).
    { intros found -> Hnot Hloop.
      destruct (IH Hmore (acc ++ year_matches env month day sp year))
        as (queried & rest & Hq & -> & Hbefore & Hlast).
      exists (year :: queried), rest. rewrite Hloop, Hq. cbn.
      rewrite <- app_assoc. split; [reflexivity|]. split; [reflexivity|].
      split.
      - intros [|y0 before] y after Heq Hafter.
        + injection Heq as <- _. cbn. now rewrite app_nil_r.
        + injection Heq as <- Heq. cbn. rewrite app_assoc.
          eapply Hbefore; eauto.
      - intros Hrest. destruct (Hlast Hrest) as (before & y & -> & Hstop).
        exists (year :: before), y. split; [reflexivity|].
        cbn. now rewrite app_assoc. }
    pose proof (try_year_app env month day sp year acc) as Happ.
    destruct (try_year env month day sp year acc) as [found o] eqn:Htry.
    injection Happ as Hfound Ho.
    destruct o as [e|].
    + apply (Hgo found Hfound).
      * unfold stops_at. now rewrite Htry.
      * assert (He : is_Exception e = true).
        { destruct (try_year_raises _ _ _ _ _ _ _ _ Htry) as [Hraise|He];
            [|exact He].
          eapply Hclient; [left; reflexivity|exact Hraise]. }
        simpl. now rewrite Htry, He.
    + destruct (5 <? length found)%nat eqn:Hlen.
      * exists [year], more. simpl. rewrite Htry, Hlen, app_nil_r, <- Hfound.
        split; [reflexivity|]. split; [reflexivity|]. split.
        -- intros [|? [|? ?]] y [|? ?] Heq Hafter; try discriminate Heq.
           now destruct Hafter.
        -- intros _. exists [], year. split; [reflexivity|].
           cbn. rewrite app_nil_r. unfold stops_at. now rewrite Htry.
      * apply (Hgo found Hfound).
        -- unfold stops_at. now rewrite Htry.
        -- simpl. now rewrite Htry, Hlen.
Qed.

(** Where the claim on failing years fails.  In [env_stub] the search of
    2015 raises and is skipped, 2016 then brings the list to seven records
    and the loop stops: the album of 2002, a sampled year whose search does
    not fail, is not in the returned list.  In [env_interrupted] the client
    raises what is not an [Exception], and so does the K-Pop finder.  In
    [env_status_300] an answer with a status that is not 2xx, nor 4xx or
    5xx, is no error: its film is kept.  In [env_list_body] an answer that
    is no JSON object makes the film finder raise. *)
Lemma non_failing_years_can_be_lost :
  sampled_years env_stub
  = Ok [2015; 2016; 2002; 2003; 2004; 2005; 2006; 2007; 2008; 2009]
  /\ spotify_search env_stub sp0 (search_call 2015) = Raise SpotifyException
  /\ try_year env_stub 3 1 sp0 2002 []
     = ([album "c1" "2002-03-01" "day"], None)
  /\ get_spotify_releases env_stub 3 1 sp0
     = (Ok seven_albums, searches sp0 [2015; 2016])
  /\ ~ In (album "c1" "2002-03-01" "day") seven_albums
  /\ get_spotify_releases env_interrupted 3 1 sp0
     = (Raise KeyboardInterrupt, searches sp0 [2015])
  /\ requests_get env_status_300 (discover_url (Some "KEY") 2017 3 1) 10
     = Ok {| status_code := 300;
             json := Ok (VDict [("results", VList [movie 1 9])]) |}
  /\ get_movie_recommendations env_status_300 3 1 (Some "KEY")
     = (Ok [movie 1 9], requests (Some "KEY") 3 1 (movie_years 2017))
  /\ get_movie_recommendations env_list_body 3 1 (Some "KEY")
     = (Raise AttributeError, requests (Some "KEY") 3 1 [2017]).
Proof.
  repeat split; try (vm_compute; reflexivity).
  intros H. simpl in H. unfold album in H.
  repeat destruct H as [H | H]; try discriminate H. exact H.
Qed.

(** C4, as the code has it.  A year whose search raises an [Exception] in the
    K-Pop finder, or whose request raises a request error (a timeout or a
    connection failure of [requests.get], a 4xx or 5xx status) in the film
    finder, is skipped and the loop goes on with the next year.  If the
    client raises nothing but [Exception]s, the K-Pop finder returns without
    raising what the years it searched append, in order; the years it
    searched are the first of the sampled years: the search ends right after
    a year whose processing ran to its end leaving more than five records,
    and ends before the last sampled year only there, so with more than
    five records.  If the answers of the film service conform to its
    interface, the film finder returns without raising the results of all
    twenty years, in order. *)
Theorem failing_year_skipped
  (env : Env) (month day : Z) (sp_client : Spotify) (api_key : option string) :
  (forall year rest albums_found e,
      spotify_search env sp_client (search_call year) = Raise e ->
      is_Exception e = true ->
      year_matches env month day sp_client year = []
      /\ year_loop env month day sp_client (year :: rest) albums_found
         = emit (Searched sp_client (search_call year))
             (year_loop env month day sp_client rest albums_found))
  /\ ((forall year e,
         spotify_search env sp_client (search_call year) = Raise e ->
         is_Exception e = true) ->
      exists years out queried rest,
        sampled_years env = Ok years
        /\ get_spotify_releases env month day sp_client
           = (Ok out, searches sp_client queried)
        /\ years = queried ++ rest
        /\ out = flat_map (year_matches env month day sp_client) queried
        /\ (forall before year after,
              queried = before ++ year :: after ->
              stops_at env month day sp_client
                (flat_map (year_matches env month day sp_client) before) year
              = true ->
              after = [])
        /\ (rest <> [] ->
            exists before year,
              queried = before ++ [year]
              /\ stops_at env month day sp_client
                   (flat_map (year_matches env month day sp_client) before)
                   year = true)
        /\ (rest = [] \/ (5 < length out)%nat))
  /\ (forall year rest movies,
        (exists r, requests_get env (discover_url api_key year month day) 10
                   = Raise (RequestException r))
        \/ (exists response,
              requests_get env (discover_url api_key year month day) 10
              = Ok response
              /\ 400 <= status_code response < 600) ->
        year_results env api_key month day year = []
        /\ movie_loop env api_key month day (year :: rest) movies
           = emit (Requested (discover_url api_key year month day) 10)
               (movie_loop env api_key month day rest movies))
  /\ (not_key api_key = false ->
      (forall year,
          In year (movie_years (now_year env)) ->
          conforms (requests_get env (discover_url api_key year month day) 10)
          = true) ->
      get_movie_recommendations env month day api_key
      = (Ok (flat_map (year_results env api_key month day)
               (movie_years (now_year env))),
         requests api_key month day (movie_years (now_year env)))).
Proof.
  split; [| split; [| split]].
  - intros year rest acc e Hraise He.
    pose proof (try_year_client_raises env month day sp_client year) as Htry.
    split.
    + unfold year_matches. now rewrite (Htry [] e Hraise).
    + simpl. now rewrite (Htry acc e Hraise), He.
  - intros Hclient.
    destruct (sampled_years_returns env) as [years Hsample].
    destruct (year_loop_searched env month day sp_client years
                ltac:(intros; eapply Hclient; eauto) [])
      as (queried & rest & Hloop & Hyears & Hbefore & Hlast).
    cbn [app] in Hloop, Hbefore, Hlast.
    exists years, (flat_map (year_matches env month day sp_client) queried),
      queried, rest.
    unfold get_spotify_releases. rewrite Hsample.
    split; [reflexivity|]. split; [exact Hloop|]. split; [exact Hyears|].
    split; [reflexivity|]. split; [|split; [exact Hlast|]].
    + intros before year after Heq Hstop.
      destruct after as [|y after]; [reflexivity|].
      rewrite (Hbefore before year (y :: after) Heq) in Hstop;
        [discriminate Hstop|discriminate].
    + destruct rest as [|y rest]; [now left|right].
      destruct Hlast as (before & year & -> & Hstop); [discriminate|].
      unfold stops_at in Hstop.
      pose proof (try_year_app env month day sp_client year
                    (flat_map (year_matches env month day sp_client) before))
        as Happ.
      destruct (try_year env month day sp_client year _) as [found [e|]];
        [discriminate Hstop|].
      injection Happ as -> _. apply Nat.ltb_lt in Hstop.
      rewrite flat_map_app. cbn. now rewrite app_nil_r.
  - intros year rest movies Hfail.
    assert (Hd : exists r, discover env api_key year month day
                           = Raise (RequestException r)).
    { destruct Hfail as [[r Hr] | (response & Hr & Hstatus)].
      - exists r. now apply discover_request_raises.
      - exists HTTPError. eapply discover_error_status; eauto. }
    destruct Hd as [r Hd]. unfold year_results. simpl. now rewrite Hd.
  - intros Hkey Hconf. unfold get_movie_recommendations. rewrite Hkey.
    rewrite movie_loop_returns; [reflexivity |].
    intros y e Hy. apply discover_conforms. now apply Hconf.
Qed.

(** In [env_stub]: the search of 2015 raises and the loop goes on with 2016;
    the request of 2016 times out and that of 2015 has status 500, and the
    film finder returns the films of 2017 and 2014 after twenty requests. *)
Lemma failing_year_skipped_witness :
  year_loop env_stub 3 1 sp0 [2015; 2016] []
  = emit (Searched sp0 (search_call 2015)) (year_loop env_stub 3 1 sp0 [2016] [])
  /\ get_movie_recommendations env_stub 3 1 (Some "KEY")
     = (Ok [movie 1 (72 # 10); movie 2 9; movie 3 8],
        requests (Some "KEY") 3 1 (movie_years 2017)).
Proof.
  destruct (failing_year_skipped env_stub 3 1 sp0 (Some "KEY"))
    as (Hskip & _ & _ & Hfilm).
  split.
  - apply (Hskip 2015 [2016] [] SpotifyException); vm_compute; reflexivity.
  - rewrite Hfilm.
    + vm_compute. reflexivity.
    + reflexivity.
    + intros year Hyear. vm_compute in Hyear.
      repeat (destruct Hyear as [<- | Hyear]; [vm_compute; reflexivity |]).
      contradiction.
Defined.

(** ** The film finder requests every year *)

Lemma movie_years_length cy : length (movie_years cy) = 20%nat.
Proof. unfold movie_years. rewrite range_down_length. lia. Qed.

Lemma movie_years_eq cy :
  movie_years cy = map (fun i => cy - Z.of_nat i) (seq 0 20).
Proof.
  unfold movie_years, range_down.
  now replace (Z.to_nat (cy - (cy - 20))) with 20%nat by lia.
Qed.

(** ** The text of a request *)

Lemma to_int_not_nil n :
  Z.to_int n <> Decimal.Pos Decimal.Nil /\ Z.to_int n <> Decimal.Neg Decimal.Nil.
Proof.
  destruct n as [|p|p]; cbn; split; try discriminate;
    intros H; injection H as H; now apply Unsigned.to_uint_nonnil in H.
Qed.

(** Two integers with the same text are equal. *)
Lemma str_of_int_inj a b : str_of_int a = str_of_int b -> a = b.
Proof.
  unfold str_of_int. intros H.
  apply (f_equal NilZero.int_of_string) in H.
  destruct (to_int_not_nil a) as [Ha1 Ha2].
  destruct (to_int_not_nil b) as [Hb1 Hb2].
  rewrite !NilZero.isi in H by assumption.
  injection H as H. now apply DecimalZ.to_int_inj.
Qed.

Lemma string_length_app (s t : string) :
  String.length (s +:+ t) = (String.length s + String.length t)%nat.
Proof.
  induction s as [|c s IH]; [reflexivity|].
  change (S (String.length (s +:+ t))
          = S (String.length s + String.length t)%nat).
  now rewrite IH.
Qed.

Lemma string_app_same_length (s s' t t' : string) :
  String.length s = String.length s' ->
  s +:+ t = s' +:+ t' -> s = s'.
Proof.
  revert s'. induction s as [|c s IH]; intros [|c' s'] Hlen H;
    try discriminate Hlen; [reflexivity|].
  change (String c (s +:+ t) = String c' (s' +:+ t')) in H.
  injection H as -> H. injection Hlen as Hlen.
  f_equal. eapply IH; eauto.
Qed.

(** The requests of two years differ. *)
Lemma discover_url_inj api_key month day year year' :
  discover_url api_key year month day = discover_url api_key year' month day ->
  year = year'.
Proof.
  intros H. apply str_of_int_inj.
  pose proof (f_equal String.length H) as Hlen.
  unfold discover_url in H, Hlen.
  repeat (apply String.app_inj in H).
  rewrite !string_length_app in Hlen.
  assert (Hl : String.length (str_of_int year)
               = String.length (str_of_int year')) by lia.
  apply string_app_same_length in H; [|rewrite !string_length_app; lia].
  now apply string_app_same_length in H.
Qed.

(** ** The date of a request reads back *)

Lemma list_ascii_app (s t : string) :
  list_ascii_of_string (s +:+ t)
  = list_ascii_of_string s ++ list_ascii_of_string t.
Proof.
  induction s as [|c s IH]; [reflexivity|].
  change (c :: list_ascii_of_string (s +:+ t)
          = c :: (list_ascii_of_string s ++ list_ascii_of_string t)).
  now rewrite IH.
Qed.

Lemma alternation_map {A B : Type} (f : A -> B) alts
  (k : Z -> list ascii -> option A) s :
  Datetime.alternation alts (fun v rest => option_map f (k v rest)) s
  = option_map f (Datetime.alternation alts k s).
Proof.
  induction alts as [|r alts IH]; [reflexivity|].
  cbn [Datetime.alternation]. rewrite IH.
  destruct (r s) as [[v rest]|]; [|reflexivity].
  destruct (k v rest); reflexivity.
Qed.

Lemma literal_map {A B : Type} (f : A -> B) c
  (k : list ascii -> option A) s :
  Datetime.literal c (fun rest => option_map f (k rest)) s
  = option_map f (Datetime.literal c k s).
Proof.
  destruct s as [|c' s]; [reflexivity|].
  cbn. destruct (Ascii.eqb c c'); reflexivity.
Qed.

Lemma alternation_ext {A : Type} alts (k k' : Z -> list ascii -> option A) s :
  (forall v rest, k v rest = k' v rest) ->
  Datetime.alternation alts k s = Datetime.alternation alts k' s.
Proof.
  intros Hk. induction alts as [|r alts IH]; [reflexivity|].
  cbn [Datetime.alternation]. rewrite IH.
  destruct (r s) as [[v rest]|]; [|reflexivity]. now rewrite Hk.
Qed.

Lemma literal_ext {A : Type} c (k k' : list ascii -> option A) s :
  (forall rest, k rest = k' rest) ->
  Datetime.literal c k s = Datetime.literal c k' s.
Proof.
  intros Hk. destruct s as [|c' s]; [reflexivity|].
  cbn. destruct (Ascii.eqb c c'); [apply Hk|reflexivity].
Qed.

(** The pattern after the year, with the year it goes on with. *)
Lemma regex_match_after_year (y : Z) s1 :
  Datetime.literal "-"
    (Datetime.alternation Datetime.alts_m (fun m =>
       Datetime.literal "-"
         (Datetime.alternation Datetime.alts_d (fun d rest =>
            Some (y, m, d, rest))))) s1
  = option_map
      (fun p : Z * Z * list ascii => (y, fst (fst p), snd (fst p), snd p))
      (month_day_match s1).
Proof.
  unfold month_day_match.
  rewrite <- literal_map. apply literal_ext. intros s2.
  rewrite <- alternation_map. apply alternation_ext. intros m s3.
  rewrite <- literal_map. apply literal_ext. intros s4.
  rewrite <- alternation_map. apply alternation_ext. intros d rest.
  reflexivity.
Qed.

Lemma four_digit_years :
  forallb four_digit_year (range_up 1000 10000) = true.
Proof. vm_compute. reflexivity. Qed.

Lemma month_day_texts :
  forallb (fun month =>
             forallb (month_day_reads month) (range_up 1 32))
    (range_up 1 13) = true.
Proof. vm_compute. reflexivity. Qed.

Lemma range_up_In start stop y :
  start <= y < stop -> In y (range_up start stop).
Proof.
  intros Hy. unfold range_up. apply in_map_iff.
  exists (Z.to_nat (y - start)). split; [lia|].
  apply in_seq. lia.
Qed.

(** On an existing date of a year of four digits, the date of the request
    is a text that [strptime] reads as that date. *)
Lemma date_text_reads_back year month day :
  1000 <= year <= 9999 ->
  Datetime.valid_date year month day = true ->
  Datetime.strptime_str (date_text year month day)
  = Ok (Datetime.mk year month day).
Proof.
  intros Hyear Hvalid.
  assert (Hmd : 1 <= month <= 12 /\ 1 <= day <= 31).
  { revert Hvalid. unfold Datetime.valid_date, Datetime.days_in_month.
    intros H. repeat (apply andb_prop in H as [H ?]).
    repeat match goal with
           | H : (_ <=? _) = true |- _ => apply Z.leb_le in H
           end.
    destruct (month =? 2); [destruct (Datetime.is_leap year)|]; [lia|lia|].
    destruct ((month =? 4) || (month =? 6) || (month =? 9) || (month =? 11));
      lia. }
  assert (Hiny : In year (range_up 1000 10000)) by (apply range_up_In; lia).
  assert (Hinm : In month (range_up 1 13)) by (apply range_up_In; lia).
  assert (Hind : In day (range_up 1 32)) by (apply range_up_In; lia).
  pose proof (proj1 (forallb_forall _ _) four_digit_years year Hiny) as Hy.
  pose proof (proj1 (forallb_forall _ _) month_day_texts month Hinm) as Hm.
  pose proof (proj1 (forallb_forall _ _) Hm day Hind) as Hd.
  clear Hm. unfold four_digit_year in Hy. unfold month_day_reads in Hd.
  unfold Datetime.strptime_str, Datetime.regex_match, date_text.
  rewrite list_ascii_app.
  destruct (list_ascii_of_string (str_of_int year))
    as [|a [|b [|c [|d [|? ?]]]]]; try discriminate Hy.
  apply andb_prop in Hy as [Hdigits Hvalue].
  apply Z.eqb_eq in Hvalue.
  cbn [app Datetime.read_Y]. rewrite Hdigits, Hvalue.
  rewrite regex_match_after_year.
  destruct (month_day_match _) as [[[m' d'] [|? ?]]|]; try discriminate Hd.
  apply andb_prop in Hd as [Hm' Hd'].
  apply Z.eqb_eq in Hm', Hd'. subst m' d'. cbn. now rewrite Hvalid.
Qed.

(** ** The film finder and its twenty years *)

(** The film loop stops before the last year only on an exception of the
    [try] body of the last year it requested that is not a request error,
    and then it raises that exception. *)
Lemma movie_loop_crash env api_key month day years :
  forall movies r evs,
    movie_loop env api_key month day years movies = (r, evs) ->
    exists queried rest,
      evs = requests api_key month day queried
      /\ years = queried ++ rest
      /\ match r with
         | Ok _ => rest = []
         | Raise e =>
             is_RequestException e = false
             /\ exists before year,
                  queried = before ++ [year]
                  /\ discover env api_key year month day = Raise e
         end.
Proof.
  induction years as [|year more IH]; intros movies r evs; simpl.
  - intros H. injection H as <- <-. exists [], []. auto.
  - destruct (discover env api_key year month day) as [results|e] eqn:Hd.
    + destruct (movie_loop env api_key month day more (movies ++ results))
        as [r' evs'] eqn:Hloop.
      intros H. injection H as <- <-.
      destruct (IH _ _ _ Hloop) as (queried & rest & -> & -> & Hr).
      exists (year :: queried), rest. split; [reflexivity|].
      split; [reflexivity|].
      destruct r' as [v|e]; [exact Hr|].
      destruct Hr as (He & before & y & -> & Hy).
      split; [exact He|]. exists (year :: before), y. auto.
    + destruct (is_RequestException e) eqn:He.
      * destruct (movie_loop env api_key month day more movies)
          as [r' evs'] eqn:Hloop.
        intros H. injection H as <- <-.
        destruct (IH _ _ _ Hloop) as (queried & rest & -> & -> & Hr).
        exists (year :: queried), rest. split; [reflexivity|].
        split; [reflexivity|].
        destruct r' as [v|e']; [exact Hr|].
        destruct Hr as (He' & before & y & -> & Hy).
        split; [exact He'|]. exists (year :: before), y. auto.
      * intros H. injection H as <- <-.
        exists [year], more. split; [reflexivity|]. split; [reflexivity|].
        split; [exact He|]. exists [], year. auto.
Qed.

(** The requests of distinct years are distinct. *)
Lemma requests_NoDup api_key month day years :
  NoDup years -> NoDup (requests api_key month day years).
Proof.
  intros Hyears. unfold requests.
  apply Finite.Injective_map_NoDup; [|exact Hyears].
  intros y y' H.
  apply (f_equal (fun ev => match ev with
                            | Requested url _ => url
                            | _ => EmptyString
                            end)) in H.
  change (discover_url api_key y month day = discover_url api_key y' month day)
    in H.
  eapply discover_url_inj, H.
Qed.




(** ** The decorator *)

Section CacheData.

Context {K : Type} `{Countable K}.

Lemma cache_data_hit (body : outcome (list pyval) * list Event)
  (store : gmap K Entry) (k : K) (entry : Entry) :
  store !! k = Some entry ->
  cache_data body store k
  = (Ok (value entry), map Shown (elements entry), store).
Proof. intros Hk. unfold cache_data. now rewrite Hk. Qed.

(** A call that returns leaves an entry with the returned value. *)
Lemma cache_data_stores (body : outcome (list pyval) * list Event)
  (store store' : gmap K Entry) (k : K) (v : list pyval) (evs : list Event) :
  cache_data body store k = (Ok v, evs, store') ->
  exists entry, store' !! k = Some entry /\ value entry = v.
Proof.
  unfold cache_data. destruct (store !! k) as [entry |] eqn:Hk.
  - intros Heq. injection Heq as <- _ <-. eauto.
  - destruct body as [[v0 | e] evs0]; [| discriminate].
    intros Heq. injection Heq as <- _ <-.
    eexists. split; [apply lookup_insert_eq | reflexivity].
Qed.

(** No call drops or changes an entry. *)
Lemma cache_data_keeps (body : outcome (list pyval) * list Event)
  (store store' : gmap K Entry) (k k' : K) (entry : Entry)
  (r : outcome (list pyval)) (evs : list Event) :
  store !! k' = Some entry ->
  cache_data body store k = (r, evs, store') ->
  store' !! k' = Some entry.
Proof.
  intros Hk'. unfold cache_data. destruct (store !! k) as [entry0 |] eqn:Hk.
  - intros Heq. now injection Heq as _ _ <-.
  - destruct body as [[v0 | e] evs0]; intros Heq; injection Heq as _ _ <-.
    + rewrite lookup_insert_ne; [exact Hk' | congruence].
    + exact Hk'.
Qed.

(** What a call stores is what its body returned and showed. *)
Lemma cache_data_new_entry (body : outcome (list pyval) * list Event)
  (store store' : gmap K Entry) (k k' : K) (entry : Entry)
  (r : outcome (list pyval)) (evs : list Event) :
  cache_data body store k = (r, evs, store') ->
  store' !! k' = Some entry ->
  store !! k' = Some entry
  \/ (k' = k /\ exists v evs0,
        body = (Ok v, evs0)
        /\ entry = {| value := v; elements := elements_of evs0 |}).
Proof.
  unfold cache_data. destruct (store !! k) as [entry0 |] eqn:Hk.
  - intros Heq. injection Heq as _ _ <-. now left.
  - destruct body as [[v0 | e] evs0]; intros Heq; injection Heq as _ _ <-.
    + destruct (decide (k = k')) as [<- | Hne].
      * rewrite lookup_insert_eq. intros Heq. injection Heq as <-.
        right. eauto.
      * rewrite lookup_insert_ne by exact Hne. now left.
    + now left.
Qed.

End CacheData.

Lemma network_calls_shown (els : list Element) :
  network_calls (map Shown els) = [].
Proof. induction els as [| el rest IH]; [reflexivity | exact IH]. Qed.

(** The decorated K-Pop finder raises while its arguments are hashed: the
    body does not run and the cache is as it was. *)
Lemma cached_get_spotify_releases_raises env cache month day sp_client :
  cached_get_spotify_releases env cache month day sp_client
  = (Raise UnhashableParamError, [], cache).
Proof. reflexivity. Qed.

Lemma cache_step_keeps c c' :
  cache_step c c' ->
  (forall k entry,
      spotify_releases c !! k = Some entry ->
      spotify_releases c' !! k = Some entry)
  /\ (forall k entry,
        movie_recommendations c !! k = Some entry ->
        movie_recommendations c' !! k = Some entry).
Proof.
  intros [env c0 month day sp r evs c1 Hcall | env c0 month day key r evs c1 Hcall].
  - rewrite cached_get_spotify_releases_raises in Hcall.
    injection Hcall as _ _ <-. auto.
  - unfold cached_get_movie_recommendations in Hcall.
    destruct (cache_data _ _ _) as [[r0 evs0] store] eqn:Hdata.
    injection Hcall as _ _ <-. simpl. split; [auto |].
    intros k entry Hk. eapply cache_data_keeps; eauto.
Qed.

Lemma cache_steps_keep c c' :
  rtc cache_step c c' ->
  (forall k entry,
      spotify_releases c !! k = Some entry ->
      spotify_releases c' !! k = Some entry)
  /\ (forall k entry,
        movie_recommendations c !! k = Some entry ->
        movie_recommendations c' !! k = Some entry).
Proof.
  induction 1 as [c | c c1 c2 Hstep _ [IHs IHm]]; [auto |].
  destruct (cache_step_keeps _ _ Hstep) as [Hs Hm]. split; eauto.
Qed.

(** C7: a defect of the code.  The decorator hashes the client, which has no
    hash: every call of the decorated K-Pop finder raises
    [UnhashableParamError] before the body runs, whatever the cache holds,
    calls no service and stores nothing, so that no call is ever answered
    from the cache; in [env_stub] the body would have returned seven albums.
    The film finder is memoised as its decorator says: once a call has
    returned a list, any later call with the same month, day and key, after
    any number of calls of either finder and whatever the service would
    answer by then, returns that list, calls no service and leaves the
    cache as it is; its body runs only for a key that has no entry yet. *)
Theorem spotify_finder_is_never_cached
  (env1 env2 : Env) (c0 c1 c2 : Cache) (month day : Z) :
  (forall sp_client,
      cached_get_spotify_releases env1 c0 month day sp_client
      = (Raise UnhashableParamError, [], c0)
      /\ cached_get_spotify_releases env2 c0 month day sp_client
         = (Raise UnhashableParamError, [], c0))
  /\ get_spotify_releases env_stub 3 1 sp0
     = (Ok seven_albums, searches sp0 [2015; 2016])
  /\ cached_get_spotify_releases env_stub empty_cache 3 1 sp0
     = (Raise UnhashableParamError, [], empty_cache)
  /\ (forall api_key movies evs,
        cached_get_movie_recommendations env1 c0 month day api_key
        = (Ok movies, evs, c1) ->
        rtc cache_step c1 c2 ->
        exists evs',
          cached_get_movie_recommendations env2 c2 month day api_key
          = (Ok movies, evs', c2)
          /\ network_calls evs' = [])
  /\ (forall api_key,
        movie_recommendations c0 !! (month, day, api_key) = None ->
        fst (cached_get_movie_recommendations env1 c0 month day api_key)
        = get_movie_recommendations env1 month day api_key).
Proof.
  split; [| split; [| split; [| split]]].
  - intros sp. split; reflexivity.
  - vm_compute. reflexivity.
  - reflexivity.
  - intros key movies evs Hfirst Hlater.
    unfold cached_get_movie_recommendations in Hfirst.
    destruct (cache_data _ _ _) as [[r0 evs0] store] eqn:Hdata.
    injection Hfirst as -> -> <-.
    destruct (cache_data_stores _ _ _ _ _ _ Hdata) as (entry & Hentry & <-).
    destruct (cache_steps_keep _ _ Hlater) as [_ Hkeep].
    apply Hkeep in Hentry.
    exists (map Shown (elements entry)).
    split; [| apply network_calls_shown].
    unfold cached_get_movie_recommendations.
    rewrite (cache_data_hit _ _ _ _ Hentry). now destruct c2.
  - intros key Hmiss. unfold cached_get_movie_recommendations, cache_data.
    rewrite Hmiss.
    now destruct (get_movie_recommendations env1 month day key) as [[movies | e] evs].
Qed.

(** ** An empty or missing key *)

Lemma get_movie_recommendations_no_key env month day api_key :
  not_key api_key = true ->
  get_movie_recommendations env month day api_key
  = (Ok [], [Shown (st_error MSG_NO_TMDB_KEY)]).
Proof. intros Hkey. unfold get_movie_recommendations. now rewrite Hkey. Qed.

Lemma no_key_entries_step c c' :
  cache_step c c' -> no_key_entries c -> no_key_entries c'.
Proof.
  intros [env c0 month day sp r evs c1 Hcall | env c0 month day key r evs c1 Hcall]
    Hinv.
  - rewrite cached_get_spotify_releases_raises in Hcall.
    injection Hcall as _ _ <-. exact Hinv.
  - unfold cached_get_movie_recommendations in Hcall.
    destruct (cache_data _ _ _) as [[r0 evs0] store] eqn:Hdata.
    injection Hcall as _ _ <-.
    intros month' day' key' entry Hentry Hkey. simpl in Hentry.
    destruct (cache_data_new_entry _ _ _ _ _ _ _ _ Hdata Hentry)
      as [Hold | (Heq & v & evs1 & Hbody & ->)].
    + eapply Hinv; eauto.
    + injection Heq as -> -> ->.
      rewrite (get_movie_recommendations_no_key _ _ _ _ Hkey) in Hbody.
      now injection Hbody as <- <-.
Qed.

Lemma no_key_entries_reachable c :
  rtc cache_step empty_cache c -> no_key_entries c.
Proof.
  revert c. apply (rtc_ind_r no_key_entries empty_cache).
  - intros month day key entry Hentry. simpl in Hentry.
    now rewrite lookup_empty in Hentry.
  - intros c c' _ Hstep Hinv. eapply no_key_entries_step; eauto.
Qed.

(** The decorated film finder on an empty or missing key: the empty list
    and the error message, from the body or from the cache. *)
Lemma cached_get_movie_recommendations_no_key env cache month day api_key :
  not_key api_key = true ->
  no_key_entries cache ->
  exists cache',
    cached_get_movie_recommendations env cache month day api_key
    = (Ok [], [Shown (st_error MSG_NO_TMDB_KEY)], cache').
Proof.
  intros Hkey Hinv.
  unfold cached_get_movie_recommendations, cache_data.
  destruct (movie_recommendations cache !! (month, day, api_key))
    as [entry |] eqn:Hentry.
  - rewrite (Hinv _ _ _ _ Hentry Hkey). simpl. eauto.
  - rewrite (get_movie_recommendations_no_key _ _ _ _ Hkey). simpl. eauto.
Qed.

(** In [env_stub], with the empty key and with no key: the finder returns
    the empty list and raises nothing. *)
Lemma empty_key_raises_nothing :
  get_movie_recommendations env_stub 3 1 (Some "")
  = (Ok [], [Shown (st_error MSG_NO_TMDB_KEY)])
  /\ get_movie_recommendations env_stub 3 1 None
     = (Ok [], [Shown (st_error MSG_NO_TMDB_KEY)]).
Proof. split; vm_compute; reflexivity. Qed.

(** C3, as the code has it.  With a key that is empty or [None], whatever
    the month and the day, the film finder shows the error message and
    returns the empty list, without raising and without a call to either
    service; so does the decorated finder at any point of the life of the
    process, from its body or from the cache.  What goes to the caller is
    the value of an empty result, not an exception. *)
Theorem empty_key_shows_error_returns_empty
  (env : Env) (cache : Cache) (month day : Z) (api_key : option string) :
  not_key api_key = true ->
  rtc cache_step empty_cache cache ->
  get_movie_recommendations env month day api_key
  = (Ok [], [Shown (st_error MSG_NO_TMDB_KEY)])
  /\ network_calls (snd (get_movie_recommendations env month day api_key)) = []
  /\ (exists cache',
        cached_get_movie_recommendations env cache month day api_key
        = (Ok [], [Shown (st_error MSG_NO_TMDB_KEY)], cache')).
Proof.
  intros Hkey Hreach.
  pose proof (get_movie_recommendations_no_key env month day api_key Hkey) as Hrun.
  split; [exact Hrun |].
  split; [now rewrite Hrun |].
  apply cached_get_movie_recommendations_no_key; [exact Hkey |].
  now apply no_key_entries_reachable.
Qed.

(** After a first film request in [env_stub], the decorated film finder
    with the empty key. *)
Lemma empty_key_shows_error_returns_empty_witness :
  exists cache',
    cached_get_movie_recommendations env_stub cache_after_movies 3 1 (Some "")
    = (Ok [], [Shown (st_error MSG_NO_TMDB_KEY)], cache').
Proof.
  refine (proj2 (proj2
    (empty_key_shows_error_returns_empty env_stub cache_after_movies 3 1
       (Some "") eq_refl _))).
  eapply rtc_l; [| apply rtc_refl].
  unfold cache_after_movies.
  destruct (cached_get_movie_recommendations env_stub empty_cache 3 1
              (Some "KEY")) as [[r evs] c] eqn:Hcall.
  eapply step_movie. exact Hcall.
Defined.

(** ** The post-processing of a column *)

Section SortDesc.

Context {K A : Type} (ltb : K -> K -> bool).
Hypothesis ltb_asym : forall a b, ltb a b = true -> ltb b a = false.
Hypothesis ltb_negtrans :
  forall a b c, ltb a b = false -> ltb b c = false -> ltb a c = false.

Lemma insert_desc_Permutation (x : K * A) l :
  Permutation (insert_desc ltb x l) (x :: l).
Proof using Type.
  induction l as [| y rest IH]; simpl; [reflexivity |].
  destruct (ltb (fst x) (fst y)); [| reflexivity].
  rewrite IH. apply perm_swap.
Qed.

Lemma sort_desc_Permutation (l : list (K * A)) :
  Permutation (sort_desc ltb l) l.
Proof using Type.
  induction l as [| x rest IH]; simpl; [reflexivity |].
  rewrite insert_desc_Permutation. now rewrite IH.
Qed.

Lemma insert_desc_sorted (x : K * A) l :
  StronglySorted (not_less ltb) l ->
  StronglySorted (not_less ltb) (insert_desc ltb x l).
Proof using ltb_asym ltb_negtrans.
  induction 1 as [| y rest Hsorted IH Hy]; simpl.
  - constructor; constructor.
  - destruct (ltb (fst x) (fst y)) eqn:Hxy.
    + constructor; [exact IH |].
      apply (Permutation_Forall (Permutation_sym (insert_desc_Permutation x rest))).
      constructor; [| exact Hy].
      unfold not_less. now apply ltb_asym.
    + constructor; [constructor; assumption |].
      constructor; [exact Hxy |].
      eapply Forall_impl; [| exact Hy].
      intros z Hz. unfold not_less in *. eapply ltb_negtrans; eauto.
Qed.

Lemma sort_desc_sorted (l : list (K * A)) :
  StronglySorted (not_less ltb) (sort_desc ltb l).
Proof using ltb_asym ltb_negtrans.
  induction l as [| x rest IH]; simpl; [constructor |].
  now apply insert_desc_sorted.
Qed.

End SortDesc.

Lemma string_compare_trans a b c :
  String.compare a b = Lt -> String.compare b c = Lt -> String.compare a c = Lt.
Proof.
  intros H1 H2. apply String_as_OT.cmp_lt.
  eapply String_as_OT.lt_trans; apply String_as_OT.cmp_lt; eauto.
Qed.

Lemma string_ltb_asym a b : String.ltb a b = true -> String.ltb b a = false.
Proof.
  unfold String.ltb. rewrite (String.compare_antisym b a).
  now destruct (String.compare a b).
Qed.

Lemma string_ltb_negtrans a b c :
  String.ltb a b = false -> String.ltb b c = false -> String.ltb a c = false.
Proof.
  unfold String.ltb.
  destruct (String.compare a b) eqn:Hab; try discriminate; intros _;
    destruct (String.compare b c) eqn:Hbc; try discriminate; intros _.
  - apply String.compare_eq_iff in Hab. subst. now rewrite Hbc.
  - apply String.compare_eq_iff in Hab. subst. now rewrite Hbc.
  - apply String.compare_eq_iff in Hbc. subst. now rewrite Hab.
  - rewrite String.compare_antisym in Hab, Hbc.
    assert (String.compare c a = Lt) as Hca.
    { apply (string_compare_trans c b a).
      - now destruct (String.compare c b).
      - now destruct (String.compare b a). }
    rewrite String.compare_antisym, Hca. reflexivity.
Qed.

Lemma string_ltb_leb a b : String.ltb a b = false -> String.leb b a = true.
Proof.
  unfold String.ltb, String.leb. rewrite (String.compare_antisym b a).
  now destruct (String.compare a b).
Qed.

Lemma Qltb_false x y : Qltb x y = false <-> (y <= x)%Q.
Proof.
  unfold Qltb. rewrite negb_false_iff. apply Qle_bool_iff.
Qed.

Lemma Qltb_asym a b : Qltb a b = true -> Qltb b a = false.
Proof.
  intros H. apply Qltb_false.
  unfold Qltb in H. apply negb_true_iff in H.
  destruct (Qlt_le_dec a b) as [Hlt | Hle].
  - now apply Qlt_le_weak.
  - apply Qle_bool_iff in Hle. congruence.
Qed.

Lemma Qltb_negtrans a b c :
  Qltb a b = false -> Qltb b c = false -> Qltb a c = false.
Proof.
  rewrite !Qltb_false. intros H1 H2. eapply Qle_trans; eauto.
Qed.

Lemma StronglySorted_map_under {X Y : Type} (R : X -> X -> Prop)
  (R' : Y -> Y -> Prop) (P : X -> Prop) (f : X -> Y) (l : list X) :
  (forall p q, P p -> P q -> R p q -> R' (f p) (f q)) ->
  StronglySorted R l -> Forall P l -> StronglySorted R' (map f l).
Proof.
  intros HR. induction 1 as [| x rest Hsorted IH Hx]; intros HP; simpl.
  - constructor.
  - apply Forall_cons_iff in HP.
    destruct HP as [HPx HPrest].
    constructor; [now apply IH |].
    apply Forall_map. rewrite Forall_forall in *.
    intros y Hy. apply HR; auto.
Qed.

Lemma firstn_In {X : Type} (x : X) (n : nat) :
  forall l, In x (firstn n l) -> In x l.
Proof.
  induction n as [| n IH]; intros [| y rest]; simpl; try contradiction.
  intros [-> | Hx]; [now left | right; now apply IH].
Qed.

Lemma with_keys_spec key records :
  forall keyed,
    with_keys key records = Ok keyed ->
    map snd keyed = records
    /\ Forall (fun p => key (snd p) = Ok (fst p)) keyed.
Proof.
  induction records as [| x rest IH]; intros keyed; simpl.
  - intros H. injection H as <-. split; [reflexivity | constructor].
  - unfold mbind, outcome_bind.
    destruct (key x) as [k |] eqn:Hk; [| discriminate].
    destruct (with_keys key rest) as [l |]; [| discriminate].
    intros H. injection H as <-.
    destruct (IH l eq_refl) as [Hmap Hall].
    split; [simpl; now rewrite Hmap | now constructor].
Qed.

Lemma str_keys_spec keyed :
  forall l,
    str_keys keyed = Some l ->
    keyed = map (fun p => (VStr (fst p), snd p)) l.
Proof.
  induction keyed as [| [k x] rest IH]; intros l; simpl.
  - intros H. now injection H as <-.
  - destruct k; try discriminate.
    destruct (str_keys rest) as [l0 |]; [| discriminate].
    intros H. injection H as <-. simpl. now rewrite (IH l0 eq_refl).
Qed.

Lemma num_keys_spec keyed :
  forall l,
    num_keys keyed = Some l ->
    Forall2 (fun p q => as_number (fst p) = Some (fst q) /\ snd p = snd q)
      keyed l.
Proof.
  induction keyed as [| [k x] rest IH]; intros l; simpl.
  - intros H. injection H as <-. constructor.
  - destruct (as_number k) as [n |] eqn:Hn; [| discriminate].
    destruct (num_keys rest) as [l0 |]; [| discriminate].
    intros H. injection H as <-. constructor; [now split | now apply IH].
Qed.

Lemma py_le_numbers kx ky x y :
  as_number kx = Some x -> as_number ky = Some y -> (y <= x)%Q -> py_le ky kx.
Proof.
  intros Hx Hy Hle. unfold py_le. rewrite Hx, Hy.
  destruct ky; try discriminate; destruct kx; try discriminate; exact Hle.
Qed.

(** What [sorted] returns is the records in another order, each record's key
    at least the key of every record after it. *)
Lemma sorted_reverse_spec key keyed out :
  Forall (fun p => key (snd p) = Ok (fst p)) keyed ->
  sorted_reverse keyed = Ok out ->
  Permutation out (map snd keyed) /\ descending key out.
Proof.
  intros Hkeys. unfold sorted_reverse.
  destruct keyed as [| p1 [| p2 more]].
  - intros H. injection H as <-. split; [reflexivity | constructor].
  - intros H. injection H as <-.
    split; [reflexivity | repeat constructor].
  - set (keyed := p1 :: p2 :: more) in *.
    destruct (str_keys keyed) as [l |] eqn:Hstr.
    + intros H. injection H as <-.
      apply str_keys_spec in Hstr.
      assert (Hsnd : map snd keyed = map snd l).
      { rewrite Hstr, map_map. reflexivity. }
      split.
      * rewrite Hsnd. apply Permutation_map, sort_desc_Permutation.
      * apply (StronglySorted_map_under (not_less String.ltb) _
                 (fun p => key (snd p) = Ok (VStr (fst p)))).
        -- intros p q Hp Hq Hpq. exists (VStr (fst p)), (VStr (fst q)).
           repeat split; auto. simpl. now apply string_ltb_leb.
        -- apply sort_desc_sorted;
             [apply string_ltb_asym | apply string_ltb_negtrans].
        -- apply (Permutation_Forall
                    (Permutation_sym (sort_desc_Permutation String.ltb l))).
           rewrite Hstr in Hkeys. apply Forall_map in Hkeys. exact Hkeys.
    + destruct (num_keys keyed) as [l |] eqn:Hnum; [| discriminate].
      intros H. injection H as <-.
      apply num_keys_spec in Hnum.
      assert (Hsnd : map snd keyed = map snd l).
      { clear Hkeys Hstr. induction Hnum as [| p q ps qs [_ Hpq] _ IH];
          [reflexivity | simpl; now rewrite Hpq, IH]. }
      assert (Hl : Forall (fun q => exists k, key (snd q) = Ok k
                                    /\ as_number k = Some (fst q)) l).
      { clear Hstr Hsnd. induction Hnum as [| p q ps qs [Hn Hpq] _ IH];
          [constructor |].
        apply Forall_cons_iff in Hkeys. destruct Hkeys as [Hp Hps].
        constructor; [| now apply IH].
        exists (fst p). rewrite <- Hpq. now split. }
      split.
      * rewrite Hsnd. apply Permutation_map, sort_desc_Permutation.
      * apply (StronglySorted_map_under (not_less Qltb) _
                 (fun q => exists k, key (snd q) = Ok k
                                     /\ as_number k = Some (fst q))).
        -- intros p q (kp & Hkp & Hnp) (kq & Hkq & Hnq) Hpq.
           exists kp, kq. repeat split; auto.
           eapply py_le_numbers; eauto. now apply Qltb_false.
        -- apply sort_desc_sorted; [apply Qltb_asym | apply Qltb_negtrans].
        -- apply (Permutation_Forall
                    (Permutation_sym (sort_desc_Permutation Qltb l))).
           exact Hl.
Qed.

(** *** Keys of the deduplicating dict *)

Lemma key_eqb_sym a b : key_eqb a b = key_eqb b a.
Proof.
  destruct a, b; simpl; try reflexivity;
    try apply Qeq_bool_comm; try apply String.eqb_sym.
Qed.

Lemma key_eqb_trans a b c :
  key_eqb a b = true -> key_eqb b c = true -> key_eqb a c = true.
Proof.
  destruct a, b; simpl; try discriminate; destruct c; simpl;
    try discriminate; try (intros; reflexivity);
    try (apply Qeq_bool_trans).
  rewrite !String.eqb_eq. congruence.
Qed.

Lemma key_eqb_refl a : hashable a = true -> key_eqb a a = true.
Proof.
  destruct a; simpl; try discriminate; intros _;
    try reflexivity; try apply Qeq_bool_refl.
  apply String.eqb_refl.
Qed.

(** Assignment keeps the keys when one of them equals [k], and adds [k] at
    the end otherwise. *)
Lemma dict_set_keys k v d :
  (map fst (dict_set k v d) = map fst d
   /\ exists k', In k' (map fst d) /\ key_eqb k' k = true)
  \/ (map fst (dict_set k v d) = map fst d ++ [k]
      /\ Forall (fun k' => key_eqb k' k = false) (map fst d)).
Proof.
  induction d as [| [k' v'] rest IH]; simpl.
  - right. split; [reflexivity | constructor].
  - destruct (key_eqb k' k) eqn:Hk; simpl.
    + left. split; [reflexivity |]. exists k'. auto.
    + destruct IH as [[-> (k0 & Hin & Hk0)] | [-> Hall]].
      * left. split; [reflexivity |]. exists k0. auto.
      * right. split; [reflexivity |]. now constructor.
Qed.

Lemma ForallOrdPairs_snoc {X : Type} (R : X -> X -> Prop) (l : list X) (x : X) :
  ForallOrdPairs R l -> Forall (fun a => R a x) l -> ForallOrdPairs R (l ++ [x]).
Proof.
  induction 1 as [| a rest Ha Hrest IH]; intros Hx; simpl.
  - repeat constructor.
  - apply Forall_cons_iff in Hx. destruct Hx as [Hax Hx].
    constructor; [| now apply IH].
    apply Forall_app. split; [exact Ha | now constructor].
Qed.

Lemma dict_set_distinct k v d :
  distinct_keys d -> distinct_keys (dict_set k v d).
Proof.
  unfold distinct_keys. intros Hd.
  destruct (dict_set_keys k v d) as [[-> _] | [-> Hall]]; [exact Hd |].
  now apply ForallOrdPairs_snoc.
Qed.

(** After [d[k] = v] an entry is either an old one under a different key, or
    the entry of [v] under a key equal to [k]. *)
Lemma dict_set_In k v d p :
  hashable k = true ->
  distinct_keys d ->
  In p (dict_set k v d) ->
  (In p d /\ key_eqb (fst p) k = false)
  \/ (snd p = v /\ key_eqb (fst p) k = true).
Proof.
  intros Hk. unfold distinct_keys.
  induction d as [| [k' v'] rest IH]; simpl; intros Hd Hp.
  - destruct Hp as [<- | []]. right. split; [reflexivity |].
    now apply key_eqb_refl.
  - inversion Hd as [| a l Hhead Hrest]; subst.
    destruct (key_eqb k' k) eqn:Hk'.
    + destruct Hp as [<- | Hp]; [right; auto |].
      left. split; [now right |].
      rewrite Forall_forall in Hhead.
      specialize (Hhead (fst p) (in_map fst _ _ Hp)).
      destruct (key_eqb (fst p) k) eqn:Hpk; [| reflexivity].
      rewrite key_eqb_sym in Hpk.
      now rewrite (key_eqb_trans _ _ _ Hk' Hpk) in Hhead.
    + destruct Hp as [<- | Hp]; [left; auto |].
      destruct (IH Hrest Hp) as [[Hin Hne] | Hnew]; [left; auto | right; auto].
Qed.

(** The dict built from the records: its keys are pairwise different, and
    each entry is either the last record with an id equal to its key, or an
    entry of the starting dict whose key is the id of no record. *)
Lemma by_id_spec records :
  forall d d',
    distinct_keys d ->
    by_id records d = Ok d' ->
    distinct_keys d'
    /\ forall k r,
         In (k, r) d' ->
         (exists before after i,
             records = before ++ r :: after
             /\ getitem r "id" = Ok i
             /\ key_eqb k i = true
             /\ free_of k after)
         \/ (In (k, r) d /\ free_of k records).
Proof.
  induction records as [| r0 rest IH]; intros d d' Hd; simpl.
  - intros H. injection H as <-. split; [exact Hd |].
    intros k r Hin. right. split; [exact Hin | constructor].
  - unfold mbind, outcome_bind.
    destruct (getitem r0 "id") as [id0 |] eqn:Hid; [| discriminate].
    destruct (hashable id0) eqn:Hhash; [| discriminate].
    intros Hrun.
    destruct (IH _ _ (dict_set_distinct id0 r0 d Hd) Hrun) as [Hd' Hentries].
    split; [exact Hd' |].
    intros k r Hin.
    destruct (Hentries k r Hin)
      as [(before & after & i & -> & Hi & Hki & Hfree) | [Hin1 Hfree]].
    + left. exists (r0 :: before), after, i. auto.
    + destruct (dict_set_In id0 r0 d (k, r) Hhash Hd Hin1)
        as [[Hold Hne] | [Hr Heq]]; simpl in *.
      * right. split; [exact Hold |].
        constructor; [| exact Hfree].
        intros i Hi. rewrite Hid in Hi. now injection Hi as <-.
      * left. subst r. exists [], rest, id0. auto.
Qed.

(** Every record has its id among the keys of the dict built from the
    records. *)
Lemma by_id_covers records :
  forall d d',
    by_id records d = Ok d' ->
    (forall k, In k (map fst d) -> In k (map fst d'))
    /\ Forall (fun r => exists i k,
                   getitem r "id" = Ok i
                   /\ In k (map fst d') /\ key_eqb k i = true) records.
Proof.
  induction records as [| r0 rest IH]; intros d d'; simpl.
  - intros H. injection H as <-. split; [auto | constructor].
  - unfold mbind, outcome_bind.
    destruct (getitem r0 "id") as [id0 |] eqn:Hid; [| discriminate].
    destruct (hashable id0) eqn:Hhash; [| discriminate].
    intros Hrun. destruct (IH _ _ Hrun) as [Hkeys Hall].
    assert (Hgrow : forall k, In k (map fst d) ->
                      In k (map fst (dict_set id0 r0 d))).
    { intros k Hk.
      destruct (dict_set_keys id0 r0 d) as [[-> _] | [-> _]];
        [exact Hk | apply in_or_app; now left]. }
    split; [auto |].
    constructor; [| exact Hall].
    exists id0.
    destruct (dict_set_keys id0 r0 d) as [[Heq (k' & Hk' & Hkk)] | [Heq _]].
    + exists k'. split; [exact Hid |]. split; [| exact Hkk].
      apply Hkeys. now rewrite Heq.
    + exists id0. split; [exact Hid |]. split; [| now apply key_eqb_refl].
      apply Hkeys. rewrite Heq. apply in_or_app. right. now left.
Qed.

Lemma ForallOrdPairs_Permutation {X : Type} (R : X -> X -> Prop) (l l' : list X) :
  (forall a b, R a b -> R b a) ->
  Permutation l l' -> ForallOrdPairs R l -> ForallOrdPairs R l'.
Proof.
  intros Hsym. induction 1 as [| x l l' Hperm IH | x y l | l l1 l2 _ IH1 _ IH2];
    intros Hl.
  - exact Hl.
  - inversion Hl as [| a l0 Hx Hrest]; subst.
    constructor; [now apply (Permutation_Forall Hperm) | now apply IH].
  - inversion Hl as [| a l0 Hy Hrest]; subst.
    inversion Hrest as [| a l0 Hx Hrest']; subst.
    apply Forall_cons_iff in Hy. destruct Hy as [Hyx Hy].
    constructor; [constructor; auto |]. now constructor.
  - auto.
Qed.

Lemma ForallOrdPairs_firstn {X : Type} (R : X -> X -> Prop) (n : nat) :
  forall l, ForallOrdPairs R l -> ForallOrdPairs R (firstn n l).
Proof.
  induction n as [| n IH]; intros l Hl; simpl; [constructor |].
  destruct Hl as [| x rest Hx Hrest]; [constructor |].
  constructor; [| now apply IH].
  rewrite Forall_forall in *. intros y Hy. apply Hx.
  eapply firstn_In. exact Hy.
Qed.

Lemma same_id_sym a b : same_id a b -> same_id b a.
Proof.
  intros (i & j & Hi & Hj & Hij). exists j, i.
  repeat split; auto. now rewrite key_eqb_sym.
Qed.

(** Records stored under pairwise different keys, each key equal to the id
    of its record, have pairwise different ids. *)
Lemma distinct_ids_of_keys d :
  distinct_keys d ->
  Forall (fun p => exists i, getitem (snd p) "id" = Ok i
                             /\ key_eqb (fst p) i = true) d ->
  distinct_ids (map snd d).
Proof.
  unfold distinct_keys, distinct_ids.
  induction d as [| [k r] rest IH]; simpl; intros Hkeys Hids; [constructor |].
  inversion Hkeys as [| a l Hk Hrest]; subst.
  apply Forall_cons_iff in Hids. destruct Hids as [(i & Hi & Hki) Hids].
  constructor; [| now apply IH].
  apply Forall_map. rewrite Forall_forall in *.
  intros [k' r'] Hin (i1 & j & Hi1 & Hj & Hij). simpl in *.
  rewrite Hi in Hi1. injection Hi1 as <-.
  destruct (Hids _ Hin) as (i' & Hi' & Hk'i'). simpl in *.
  rewrite Hj in Hi'. injection Hi' as <-.
  specialize (Hk k' (in_map fst _ _ Hin)). simpl in Hk.
  rewrite key_eqb_sym in Hk'i'.
  rewrite (key_eqb_trans _ _ _ (key_eqb_trans _ _ _ Hki Hij) Hk'i') in Hk.
  discriminate.
Qed.

(** The deduplicated list: ids pairwise different, each record the last of
    the raw list with its id, and every id of the raw list present. *)
Lemma unique_spec records deduplicated :
  unique records = Ok deduplicated ->
  distinct_ids deduplicated
  /\ Forall (last_of_its_id records) deduplicated
  /\ Forall (fun r => exists r', In r' deduplicated /\ same_id r r') records.
Proof.
  unfold unique, mbind, outcome_bind.
  destruct (by_id records []) as [d |] eqn:Hrun; [| discriminate].
  intros H. injection H as <-.
  destruct (by_id_spec records [] d ltac:(constructor) Hrun) as [Hkeys Hentries].
  assert (Hlast : forall k r, In (k, r) d ->
            exists before after i,
              records = before ++ r :: after
              /\ getitem r "id" = Ok i /\ key_eqb k i = true
              /\ free_of k after).
  { intros k r Hin. destruct (Hentries k r Hin) as [Hl | [[] _]]. exact Hl. }
  split; [| split].
  - apply distinct_ids_of_keys; [exact Hkeys |].
    apply Forall_forall. intros [k r] Hin.
    destruct (Hlast k r Hin) as (_ & _ & i & _ & Hi & Hki & _). eauto.
  - apply Forall_map, Forall_forall. intros [k r] Hin. simpl.
    destruct (Hlast k r Hin) as (before & after & i & Hrec & Hi & Hki & Hfree).
    exists before, after. split; [exact Hrec |].
    unfold free_of in Hfree. rewrite Forall_forall in *.
    intros r' Hr' (i1 & j & Hi1 & Hj & Hij).
    rewrite Hi in Hi1. injection Hi1 as <-.
    specialize (Hfree r' Hr' j Hj).
    rewrite (key_eqb_trans _ _ _ Hki Hij) in Hfree. discriminate.
  - destruct (by_id_covers records [] d Hrun) as [_ Hcover].
    rewrite Forall_forall in *. intros r Hr.
    destruct (Hcover r Hr) as (i & k & Hi & Hk & Hki).
    apply in_map_iff in Hk. destruct Hk as ([k0 r'] & Heq & Hin).
    simpl in Heq. subst k0.
    destruct (Hlast k r' Hin) as (_ & _ & i' & _ & Hi' & Hki' & _).
    exists r'. split; [apply in_map_iff; exists (k, r'); auto |].
    exists i, i'. repeat split; auto.
    rewrite key_eqb_sym in Hki. eapply key_eqb_trans; eauto.
Qed.

Lemma last_of_its_id_In records r : last_of_its_id records r -> In r records.
Proof.
  intros (before & after & -> & _). apply in_or_app. right. now left.
Qed.

(** The whole post-processing of a column, for either key function. *)
Lemma top_five_spec key records top :
  (deduplicated ← unique records;
   keyed ← with_keys key deduplicated;
   ordered ← sorted_reverse keyed;
   Ok (firstn 5 ordered)) = Ok top ->
  top_five_of key records top
  /\ distinct_ids top
  /\ (length top <= 5)%nat
  /\ incl top records
  /\ Forall (last_of_its_id records) top.
Proof.
  unfold mbind, outcome_bind.
  destruct (unique records) as [deduplicated |] eqn:Hunique; [| discriminate].
  destruct (with_keys key deduplicated) as [keyed |] eqn:Hkeyed; [| discriminate].
  destruct (sorted_reverse keyed) as [ordered |] eqn:Hsorted; [| discriminate].
  intros H. injection H as <-.
  destruct (unique_spec _ _ Hunique) as (Hdistinct & Hlast & _).
  destruct (with_keys_spec _ _ _ Hkeyed) as [Hsnd Hkeys].
  destruct (sorted_reverse_spec key _ _ Hkeys Hsorted) as [Hperm Hdesc].
  rewrite Hsnd in Hperm.
  assert (Hlast' : Forall (last_of_its_id records) (firstn 5 ordered)).
  { apply Forall_forall. intros r Hr. apply firstn_In in Hr.
    rewrite Forall_forall in Hlast. apply Hlast.
    now apply (Permutation_in _ Hperm). }
  split; [exists deduplicated, ordered; auto |].
  split.
  { apply ForallOrdPairs_firstn.
    apply (ForallOrdPairs_Permutation _ deduplicated);
      [| now apply Permutation_sym | exact Hdistinct].
    intros a b Hab Hba. apply Hab. now apply same_id_sym. }
  split; [apply firstn_le_length |].
  split; [| exact Hlast'].
  intros r Hr. rewrite Forall_forall in Hlast'.
  now apply last_of_its_id_In, Hlast'.
Qed.

(** *** The post-processing returns on well-formed records *)

Lemma by_id_returns records :
  Forall has_id records ->
  forall d, exists d', by_id records d = Ok d'.
Proof.
  induction 1 as [| r rest (i & Hi & Hhash) _ IH]; intros d; simpl.
  - eauto.
  - unfold mbind, outcome_bind. rewrite Hi, Hhash. apply IH.
Qed.

Lemma with_keys_returns key records :
  Forall (fun r => exists k, key r = Ok k) records ->
  exists keyed, with_keys key records = Ok keyed.
Proof.
  induction 1 as [| r rest [k Hk] _ [keyed IH]]; simpl.
  - eauto.
  - unfold mbind, outcome_bind. rewrite Hk, IH. eauto.
Qed.

Lemma str_keys_returns keyed :
  Forall (fun p => exists s, fst p = VStr s) keyed ->
  exists l, str_keys keyed = Some l.
Proof.
  induction 1 as [| [k x] rest [s Hs] _ [l IH]]; simpl in *.
  - eauto.
  - subst k. rewrite IH. eauto.
Qed.

Lemma num_keys_returns keyed :
  Forall (fun p => exists n, as_number (fst p) = Some n) keyed ->
  exists l, num_keys keyed = Some l.
Proof.
  induction 1 as [| [k x] rest [n Hn] _ [l IH]]; simpl in *.
  - eauto.
  - rewrite Hn, IH. eauto.
Qed.

Lemma sorted_reverse_returns keyed :
  Forall (fun p => exists s, fst p = VStr s) keyed
  \/ Forall (fun p => exists n, as_number (fst p) = Some n) keyed ->
  exists out, sorted_reverse keyed = Ok out.
Proof.
  intros Hkeys. unfold sorted_reverse.
  destruct keyed as [| p1 [| p2 more]]; [eauto | eauto |].
  destruct (str_keys (p1 :: p2 :: more)) as [l |] eqn:Hstr; [eauto |].
  destruct Hkeys as [Hs | Hn].
  - destruct (str_keys_returns _ Hs) as [l Hl]. congruence.
  - destruct (num_keys_returns _ Hn) as [l ->]. eauto.
Qed.

(** The post-processing returns when every record has a hashable id and a
    key, the keys being all strings or all numbers. *)
Lemma top_five_returns key records :
  Forall has_id records ->
  Forall (fun r => exists s, key r = Ok (VStr s)) records
  \/ Forall (fun r => exists k n, key r = Ok k /\ as_number k = Some n) records ->
  exists top,
    (deduplicated ← unique records;
     keyed ← with_keys key deduplicated;
     ordered ← sorted_reverse keyed;
     Ok (firstn 5 ordered)) = Ok top.
Proof.
  intros Hids Hkeys.
  destruct (by_id_returns records Hids []) as [d Hd].
  assert (Hunique : unique records = Ok (map snd d)).
  { unfold unique, mbind, outcome_bind. now rewrite Hd. }
  destruct (unique_spec _ _ Hunique) as (_ & Hlast & _).
  assert (Hin : forall r, In r (map snd d) -> In r records).
  { rewrite Forall_forall in Hlast. intros r Hr.
    now apply last_of_its_id_In, Hlast. }
  assert (Hhas : Forall (fun r => exists k, key r = Ok k) (map snd d)).
  { apply Forall_forall. intros r Hr. apply Hin in Hr.
    destruct Hkeys as [Hs | Hn]; rewrite Forall_forall in *.
    - destruct (Hs r Hr) as [s Hk]. eauto.
    - destruct (Hn r Hr) as (k & n & Hk & _). eauto. }
  destruct (with_keys_returns key _ Hhas) as [keyed Hkeyed].
  destruct (with_keys_spec _ _ _ Hkeyed) as [Hsnd Hkeyed_ok].
  destruct (sorted_reverse_returns keyed) as [out Hout].
  { destruct Hkeys as [Hs | Hn]; [left | right];
      apply Forall_forall; intros p Hp;
      pose proof (proj1 (Forall_forall _ _) Hkeyed_ok p Hp) as Hkp;
      assert (Hr : In (snd p) records)
        by (apply Hin; rewrite <- Hsnd; now apply in_map);
      rewrite Forall_forall in *.
    - destruct (Hs _ Hr) as [s Hk]. exists s. congruence.
    - destruct (Hn _ Hr) as (k & n & Hk & Hnum). exists n. congruence. }
  unfold mbind, outcome_bind. rewrite Hunique, Hkeyed, Hout. eauto.
Qed.

(** C8.  What a column shows is the raw list deduplicated by id, sorted
    (albums by [release_date], films by [vote_average]) so that each record's
    key is at least the key of every record after it, and cut to its first
    five records: no two records shown share an id, there are at most five,
    all are records of the raw list.  The post-processing returns such a
    list whenever the records are well formed.  On the two examples: the
    albums a, a, b of 2012, 2012 and 2015 give b, a; the films 1 and 2 rated
    7.2 and 9.0 give 2, 1. *)
Theorem columns_deduplicate_sort_truncate :
  (forall albums top,
      shown_albums albums = Ok top ->
      top_five_of album_key albums top
      /\ distinct_ids top /\ (length top <= 5)%nat /\ incl top albums)
  /\ (forall movies top,
        shown_movies movies = Ok top ->
        top_five_of movie_key movies top
        /\ distinct_ids top /\ (length top <= 5)%nat /\ incl top movies)
  /\ (forall albums,
        Forall album_record albums -> exists top, shown_albums albums = Ok top)
  /\ (forall movies,
        Forall movie_record movies -> exists top, shown_movies movies = Ok top)
  /\ shown_albums [album_a; album_a; album_b] = Ok [album_b; album_a]
  /\ shown_movies [movie_1; movie_2] = Ok [movie_2; movie_1].
Proof.
  split; [| split; [| split; [| split; [| split]]]].
  - intros albums top Hshown.
    destruct (top_five_spec album_key albums top Hshown) as (? & ? & ? & ? & _).
    auto.
  - intros movies top Hshown.
    destruct (top_five_spec movie_key movies top Hshown) as (? & ? & ? & ? & _).
    auto.
  - intros albums Hrecords. apply (top_five_returns album_key).
    + eapply Forall_impl; [| exact Hrecords]. now intros r [Hid _].
    + left. eapply Forall_impl; [| exact Hrecords]. now intros r [_ Hdate].
  - intros movies Hrecords. apply (top_five_returns movie_key).
    + eapply Forall_impl; [| exact Hrecords]. now intros r [Hid _].
    + right. eapply Forall_impl; [| exact Hrecords]. now intros r [_ Hvote].
  - vm_compute. reflexivity.
  - vm_compute. reflexivity.
Qed.

(** C9.  Of several records of the raw list with one id the deduplication
    keeps the last: every record of the deduplicated list, and so every
    record a column shows, stands in the raw list with no record of the same
    id after it, and every id of the raw list is the id of a record of the
    deduplicated list.  Two records with the id a and different names: the
    later one is shown. *)
Theorem deduplication_keeps_last_occurrence :
  (forall records deduplicated,
      unique records = Ok deduplicated ->
      Forall (last_of_its_id records) deduplicated
      /\ Forall (fun r => exists r', In r' deduplicated /\ same_id r r') records)
  /\ (forall albums top,
        shown_albums albums = Ok top -> Forall (last_of_its_id albums) top)
  /\ (forall movies top,
        shown_movies movies = Ok top -> Forall (last_of_its_id movies) top)
  /\ unique [album_a_first; album_b; album_a_last] = Ok [album_a_last; album_b]
  /\ shown_albums [album_a_first; album_b; album_a_last]
     = Ok [album_b; album_a_last].
Proof.
  split; [| split; [| split; [| split]]].
  - intros records deduplicated Hunique.
    destruct (unique_spec _ _ Hunique) as (_ & Hlast & Hcover). auto.
  - intros albums top Hshown.
    now destruct (top_five_spec album_key albums top Hshown) as (_ & _ & _ & _ & ?).
  - intros movies top Hshown.
    now destruct (top_five_spec movie_key movies top Hshown) as (_ & _ & _ & _ & ?).
  - vm_compute. reflexivity.
  - vm_compute. reflexivity.
Qed.

(** ** Further properties *)

(** Whatever happens, the events of the K-Pop loop are the searches of a
    prefix of its years. *)
Lemma year_loop_events env month day sp years :
  forall albums_found,
  exists queried rest,
    snd (year_loop env month day sp years albums_found) = searches sp queried
    /\ years = queried ++ rest.
Proof.
  induction years as [| year more IH]; intros acc; simpl.
  - exists [], []. auto.
  - destruct (try_year env month day sp year acc) as [found [e |]].
    + destruct (is_Exception e).
      * destruct (IH found) as (queried & rest & Hevs & ->).
        exists (year :: queried), rest. simpl. now rewrite Hevs.
      * exists [year], more. auto.
    + destruct (5 <? length found)%nat.
      * exists [year], more. auto.
      * destruct (IH found) as (queried & rest & Hevs & ->).
        exists (year :: queried), rest. simpl. now rewrite Hevs.
Qed.

Lemma network_calls_searches sp years :
  network_calls (searches sp years) = searches sp years.
Proof.
  induction years as [| y rest IH]; [reflexivity |].
  unfold network_calls in *. simpl. now rewrite IH.
Qed.

Lemma network_calls_requests api_key month day years :
  network_calls (requests api_key month day years)
  = requests api_key month day years.
Proof.
  induction years as [| y rest IH]; [reflexivity |].
  unfold network_calls in *. simpl. now rewrite IH.
Qed.

(** X1.  A submission costs at most thirty calls to the services, whatever
    they answer and however the finders end: the K-Pop finder makes at most
    ten searches, for pairwise distinct years of the range from 2001 to the
    current year minus one, and the film finder at most twenty requests. *)
Theorem finders_call_services_at_most_thirty_times
  (env : Env) (month day : Z) (sp_client : Spotify) (api_key : option string) :
  (exists queried,
      network_calls (snd (get_spotify_releases env month day sp_client))
      = searches sp_client queried
      /\ (length queried <= 10)%nat
      /\ NoDup queried
      /\ Forall (fun y => 2001 <= y <= now_year env - 1) queried)
  /\ (length (network_calls
                (snd (get_movie_recommendations env month day api_key)))
      <= 20)%nat.
Proof.
  split.
  - unfold get_spotify_releases, sampled_years.
    set (population := years_to_search (now_year env)).
    destruct (sample_Ok (rng env) population (Nat.min (length population) 10))
      as (years & left_over & -> & Hlen & Hperm); [lia |].
    destruct (year_loop_events env month day sp_client years [])
      as (queried & rest & -> & ->).
    exists queried. rewrite network_calls_searches.
    split; [reflexivity |].
    rewrite length_app in Hlen.
    split; [lia |].
    assert (Hnodup : NoDup ((queried ++ rest) ++ left_over)).
    { apply (Permutation_NoDup (Permutation_sym Hperm)), range_down_NoDup. }
    split.
    + eapply NoDup_app_remove_r, NoDup_app_remove_r. exact Hnodup.
    + apply Forall_forall. intros y Hy.
      assert (Hin : In y population).
      { apply (Permutation_in _ Hperm).
        apply in_or_app. left. apply in_or_app. now left. }
      unfold population, years_to_search in Hin.
      apply range_down_In in Hin. lia.
  - unfold get_movie_recommendations.
    destruct (not_key api_key); [simpl; lia |].
    destruct (movie_loop_stops_on_crash_only env api_key month day
                (movie_years (now_year env)) [])
      as (r & queried & rest & -> & Hyears & _).
    simpl. rewrite network_calls_requests.
    pose proof (movie_years_length (now_year env)) as Hlen.
    rewrite Hyears, length_app in Hlen.
    unfold requests. rewrite length_map. lia.
Qed.

Lemma strptime_valid v date :
  Datetime.strptime v = Ok date ->
  Datetime.valid_date (Datetime.year date) (Datetime.month date)
    (Datetime.day date) = true.
Proof.
  destruct v; simpl; try discriminate.
  unfold Datetime.strptime_str.
  destruct (Datetime.regex_match _) as [[[[y m] d] [| c rest]] |];
    try discriminate.
  destruct (Datetime.valid_date y m d) eqn:Hvalid; [| discriminate].
  intros H. injection H as <-. exact Hvalid.
Qed.

(** X2.  A month and day that exist in no year (30 February, say) are
    accepted, and the K-Pop finder returns no record for them. *)
Theorem impossible_date_yields_no_album
  (env : Env) (month day : Z) (sp_client : Spotify)
  (albums : list pyval) (evs : list Event) :
  (forall year, Datetime.valid_date year month day = false) ->
  get_spotify_releases env month day sp_client = (Ok albums, evs) ->
  albums = [].
Proof.
  intros Hnever. unfold get_spotify_releases.
  destruct (sampled_years env) as [years |]; [| discriminate].
  intros Hrun.
  pose proof (year_loop_Forall (released_on month day) env month day
                sp_client years (album_matches_true month day) [] albums evs
                (Forall_nil _) Hrun) as Hall.
  destruct albums as [| album rest]; [reflexivity |].
  apply Forall_cons_iff in Hall.
  destruct Hall as [(_ & text & date & _ & Hparse & <- & <-) _].
  apply strptime_valid in Hparse. now rewrite Hnever in Hparse.
Qed.

(** In [env_stub], whose catalogue has albums of 1 March, nothing is found
    for 30 February. *)
Lemma impossible_date_yields_no_album_witness :
  get_spotify_releases env_stub 2 30 sp0
  = (Ok [], searches sp0 [2015; 2016; 2002; 2003; 2004; 2005; 2006; 2007;
                          2008; 2009]).
Proof.
  destruct (get_spotify_releases env_stub 2 30 sp0) as [[albums | e] evs] eqn:Hrun.
  - rewrite (impossible_date_yields_no_album env_stub 2 30 sp0 albums evs);
      [| | exact Hrun].
    + assert (Hevs : snd (get_spotify_releases env_stub 2 30 sp0)
                     = searches sp0 [2015; 2016; 2002; 2003; 2004; 2005; 2006;
                                     2007; 2008; 2009])
        by (vm_compute; reflexivity).
      rewrite Hrun in Hevs. simpl in Hevs. now rewrite Hevs.
    + intros year. unfold Datetime.valid_date, Datetime.days_in_month. simpl.
      destruct (Datetime.is_leap year); simpl;
        now rewrite !andb_false_r.
  - assert (Hfst : fst (get_spotify_releases env_stub 2 30 sp0) = Ok [])
      by (vm_compute; reflexivity).
    rewrite Hrun in Hfst. discriminate Hfst.
Defined.

(** X3.  The albums the K-Pop finder returns can always be sorted: when each
    of them has a hashable id the post-processing of the album column
    returns, and what it returns is their first five by descending
    [release_date] after deduplication. *)
Theorem finder_albums_can_be_shown
  (env : Env) (month day : Z) (sp_client : Spotify)
  (albums : list pyval) (evs : list Event) :
  get_spotify_releases env month day sp_client = (Ok albums, evs) ->
  Forall has_id albums ->
  exists top,
    shown_albums albums = Ok top /\ top_five_of album_key albums top.
Proof.
  unfold get_spotify_releases.
  destruct (sampled_years env) as [years |]; [| discriminate].
  intros Hrun Hids.
  pose proof (year_loop_Forall (released_on month day) env month day
                sp_client years (album_matches_true month day) [] albums evs
                (Forall_nil _) Hrun) as Hall.
  destruct (top_five_returns album_key albums Hids) as [top Htop].
  { left. eapply Forall_impl; [| exact Hall].
    intros album (_ & text & date & Htext & Hparse & _).
    destruct text; simpl in Hparse; try discriminate. eauto. }
  exists top. split; [exact Htop |].
  now destruct (top_five_spec album_key albums top Htop).
Qed.

(** In [env_stub]: the seven albums of the finder, and the five shown. *)
Lemma finder_albums_can_be_shown_witness :
  exists top,
    shown_albums seven_albums = Ok top
    /\ top_five_of album_key seven_albums top.
Proof.
  apply (finder_albums_can_be_shown env_stub 3 1 sp0 seven_albums
           (searches sp0 [2015; 2016])).
  - vm_compute. reflexivity.
  - repeat constructor; eexists; split; reflexivity.
Defined.

(** * Properties of the rest of the script *)

(** ** The form *)

Lemma range_up_length start stop :
  length (range_up start stop) = Z.to_nat (stop - start).
Proof. unfold range_up. now rewrite length_map, length_seq. Qed.

Lemma range_up_lookup start stop (i : nat) :
  (i < Z.to_nat (stop - start))%nat ->
  range_up start stop !! i = Some (start + Z.of_nat i).
Proof.
  intros Hi. unfold range_up.
  rewrite list_lookup_fmap, lookup_seq_lt by exact Hi. reflexivity.
Qed.

Lemma selected_default options index :
  0 <= index < Z.of_nat (length options) ->
  selected options index None = options !! Z.to_nat index.
Proof.
  intros [Hlo Hhi]. unfold selected.
  apply Z.leb_le in Hlo. apply Z.ltb_lt in Hhi. now rewrite Hlo, Hhi.
Qed.

Lemma selected_pick options index i :
  0 <= index < Z.of_nat (length options) ->
  selected options index (Some i) = options !! i.
Proof.
  intros [Hlo Hhi]. unfold selected.
  apply Z.leb_le in Hlo. apply Z.ltb_lt in Hhi. now rewrite Hlo, Hhi.
Qed.

Lemma valid_date_bounds y m d :
  Datetime.valid_date y m d = true -> 1 <= m <= 12 /\ 1 <= d <= 31.
Proof.
  unfold Datetime.valid_date, Datetime.days_in_month. intros H.
  repeat (apply andb_prop in H as [H ?]).
  repeat match goal with
         | H : (_ <=? _) = true |- _ => apply Z.leb_le in H
         end.
  destruct (m =? 2); [destruct (Datetime.is_leap y)|];
    [lia | lia |].
  destruct ((m =? 4) || (m =? 6) || (m =? 9) || (m =? 11)); lia.
Qed.

Lemma selected_range stop index pick :
  0 <= index < stop - 1 ->
  (forall i, pick = Some i -> (i < Z.to_nat (stop - 1))%nat) ->
  selected (range_up 1 stop) index pick
  = Some (match pick with
          | Some i => Z.of_nat i + 1
          | None => index + 1
          end).
Proof.
  intros Hindex Hpick.
  assert (Hlen : 0 <= index < Z.of_nat (length (range_up 1 stop))).
  { rewrite range_up_length. lia. }
  destruct pick as [i|].
  - rewrite selected_pick by exact Hlen.
    rewrite range_up_lookup by (apply Hpick; reflexivity).
    f_equal. lia.
  - rewrite selected_default by exact Hlen.
    rewrite range_up_lookup by lia. f_equal. lia.
Qed.

(** X4.  On any existing day, whatever the visitor picks in the two lists,
    the form gives a month of 1..12 and a day of 1..31: the option picked,
    and today's month and day when none is.  The two are not checked
    together. *)
Theorem form_gives_month_and_day_in_range (host : Host) (browser : Browser) :
  Datetime.valid_date (Datetime.year (today host))
    (Datetime.month (today host)) (Datetime.day (today host)) = true ->
  (forall i, month_pick browser = Some i -> (i < 12)%nat) ->
  (forall i, day_pick browser = Some i -> (i < 31)%nat) ->
  exists month day,
    form host browser = Some (month, day)
    /\ 1 <= month <= 12
    /\ 1 <= day <= 31
    /\ month = match month_pick browser with
               | Some i => Z.of_nat i + 1
               | None => Datetime.month (today host)
               end
    /\ day = match day_pick browser with
             | Some i => Z.of_nat i + 1
             | None => Datetime.day (today host)
             end.
Proof.
  intros Htoday Hmonth Hday.
  apply valid_date_bounds in Htoday as [Hm Hd].
  unfold form.
  rewrite (selected_range 13) by (try lia; exact Hmonth).
  rewrite (selected_range 32) by (try lia; exact Hday).
  do 2 eexists. split; [reflexivity|].
  destruct (month_pick browser) as [i|] eqn:Ei;
    destruct (day_pick browser) as [j|] eqn:Ej;
    try (specialize (Hmonth _ eq_refl)); try (specialize (Hday _ eq_refl));
    repeat split; lia.
Qed.

Lemma form_gives_month_and_day_in_range_witness :
  form host_stub arrives = Some (3, 1)
  /\ form host_stub picks_30_february = Some (2, 30).
Proof.
  split.
  - destruct (form_gives_month_and_day_in_range host_stub arrives)
      as (month & day & Hform & _ & _ & -> & ->).
    + reflexivity.
    + intros i Hi. discriminate Hi.
    + intros i Hi. discriminate Hi.
    + exact Hform.
  - destruct (form_gives_month_and_day_in_range host_stub picks_30_february)
      as (month & day & Hform & _ & _ & -> & ->).
    + reflexivity.
    + intros i Hi. injection Hi as <-. lia.
    + intros i Hi. injection Hi as <-. lia.
    + exact Hform.
Defined.

(** ** The secrets and the branches of the script *)

Lemma form_selected host browser month day :
  form host browser = Some (month, day) ->
  selected (range_up 1 13) (Datetime.month (today host) - 1)
    (month_pick browser) = Some month
  /\ selected (range_up 1 32) (Datetime.day (today host) - 1)
       (day_pick browser) = Some day.
Proof.
  unfold form. intros H.
  destruct (selected (range_up 1 13) _ _) as [m|]; [|discriminate H].
  destruct (selected (range_up 1 32) _ _) as [d|]; [|discriminate H].
  cbn in H. injection H as <- <-. split; reflexivity.
Qed.

(** The run of a visitor who has not pressed the button. *)
Lemma script_not_submitted host env browser cache month day :
  form host browser = Some (month, day) ->
  pressed browser = false ->
  script host env browser cache
  = (Completed,
     form_drawn host
     ++ [ Draw (element (st_info MSG_LANDING));
          Draw (st_image [Lit LANDING_IMAGE] (Some LANDING_LEGEND)) ],
     cache).
Proof.
  intros Hform Hpressed. apply form_selected in Hform as [Hm Hd].
  unfold script. rewrite Hm, Hd, Hpressed. reflexivity.
Qed.

(** The run of a visitor who has pressed the button. *)
Lemma script_submitted host env browser cache month day :
  form host browser = Some (month, day) ->
  pressed browser = true ->
  script host env browser cache
  = match load_credentials host with
    | Raise e => (Failed e, form_drawn host, cache)
    | Ok None =>
        (Stopped, form_drawn host ++ [Draw (element (st_error MSG_NO_KEYS))],
         cache)
    | Ok (Some (tmdb_api_key, sp)) =>
        let '(r, steps, cache') :=
          submitted_page env cache month day sp (Some tmdb_api_key) in
        (match r with Ok _ => Completed | Raise e => Failed e end,
         form_drawn host ++ steps, cache')
    end.
Proof.
  intros Hform Hpressed. apply form_selected in Hform as [Hm Hd].
  unfold script. rewrite Hm, Hd, Hpressed. reflexivity.
Qed.

(** A run that fails in the form has drawn widgets only. *)
Lemma script_calls_need_credentials host env browser cache :
  pressed browser = false
  \/ (forall tmdb_api_key sp,
        load_credentials host <> Ok (Some (tmdb_api_key, sp))) ->
  calls (steps_of (script host env browser cache)) = []
  /\ cache_of (script host env browser cache) = cache.
Proof.
  intros Hno. unfold script.
  destruct (selected (range_up 1 13) _ _) as [month|]; [|split; reflexivity].
  destruct (selected (range_up 1 32) _ _) as [day|]; [|split; reflexivity].
  destruct (pressed browser); [|split; reflexivity].
  destruct Hno as [Hno|Hno]; [discriminate Hno|].
  destruct (load_credentials host) as [[[key sp]|]|e];
    [|split; reflexivity|split; reflexivity].
  now destruct (Hno key sp).
Qed.

(** The three lookups succeed exactly when the three secrets are there. *)
Lemma read_keys_secret host root :
  secrets host = Some root ->
  forall key id pw,
    read_keys root = Some (key, id, pw)
    <-> secret host "tmdb" "api_key" = Some key
        /\ secret host "spotify" "client_id" = Some id
        /\ secret host "spotify" "client_secret" = Some pw.
Proof.
  intros Hroot key id pw. unfold secret, read_keys. rewrite Hroot. cbn.
  destruct (assoc "tmdb" root) as [tmdb|]; cbn; [|intuition discriminate].
  destruct (assoc "api_key" tmdb) as [k|]; cbn; [|intuition discriminate].
  destruct (assoc "spotify" root) as [spotify|]; cbn; [|intuition discriminate].
  destruct (assoc "client_id" spotify) as [i|]; cbn; [|intuition discriminate].
  destruct (assoc "client_secret" spotify) as [p|]; cbn;
    [|intuition discriminate].
  split.
  - intros H. injection H as <- <- <-. auto.
  - intros (H1 & H2 & H3). congruence.
Qed.

Lemma load_credentials_missing host :
  secret host "tmdb" "api_key" = None
  \/ secret host "spotify" "client_id" = None
  \/ secret host "spotify" "client_secret" = None ->
  load_credentials host = Ok None.
Proof.
  intros Hmissing. unfold load_credentials.
  destruct (secrets host) as [root|] eqn:Hroot; [|reflexivity].
  destruct (read_keys root) as [[[key id] pw]|] eqn:Hkeys; [|reflexivity].
  apply (read_keys_secret host root Hroot) in Hkeys as (H1 & H2 & H3).
  destruct Hmissing as [H|[H|H]]; congruence.
Qed.

Lemma load_credentials_present host key id pw :
  secret host "tmdb" "api_key" = Some key ->
  secret host "spotify" "client_id" = Some id ->
  secret host "spotify" "client_secret" = Some pw ->
  load_credentials host
  = match connect host id pw with
    | Ok sp => Ok (Some (key, sp))
    | Raise KeyError => Ok None
    | Raise e => Raise e
    end.
Proof.
  intros H1 H2 H3. unfold load_credentials.
  destruct (secrets host) as [root|] eqn:Hroot.
  - assert (Hkeys : read_keys root = Some (key, id, pw)).
    { apply (read_keys_secret host root Hroot). auto. }
    rewrite Hkeys. reflexivity.
  - unfold secret in H1. rewrite Hroot in H1. discriminate H1.
Qed.

(** The submitted branch ends at the call of the decorated K-Pop finder,
    under the subheader of the album column. *)
Lemma submitted_page_raises env cache month day sp tmdb_api_key :
  submitted_page env cache month day sp tmdb_api_key
  = (Raise UnhashableParamError,
     [Draw (element (st_subheader (album_subheader month day)))], cache).
Proof. reflexivity. Qed.

Lemma submitted_page_head env cache month day sp tmdb_api_key :
  exists steps,
    snd (fst (submitted_page env cache month day sp tmdb_api_key))
    = Draw (element (st_subheader (album_subheader month day))) :: steps.
Proof. rewrite submitted_page_raises. cbn. eauto. Qed.



(** X6.  A run calls a service, or changes the cache, only when the visitor
    has pressed the button and the secrets block has given a key and a
    client.  A visitor who has not pressed gets the notice and the picture
    of the landing page after the form, and the secrets are not read. *)
Theorem no_call_without_submission_and_credentials
  (host : Host) (env : Env) (browser : Browser) (cache : Cache) :
  (pressed browser = false
   \/ (forall tmdb_api_key sp,
         load_credentials host <> Ok (Some (tmdb_api_key, sp))) ->
   calls (steps_of (script host env browser cache)) = []
   /\ cache_of (script host env browser cache) = cache)
  /\ (forall month day,
        form host browser = Some (month, day) ->
        pressed browser = false ->
        script host env browser cache
        = (Completed,
           form_drawn host
           ++ [ Draw (element (st_info MSG_LANDING));
                Draw (st_image [Lit LANDING_IMAGE] (Some LANDING_LEGEND)) ],
           cache)).
Proof.
  split.
  - apply script_calls_need_credentials.
  - intros month day. apply script_not_submitted.
Qed.

(** ** A submission with its credentials *)

(** X7.  A submission with the three secrets and a client ends at line 136:
    the decorated K-Pop finder raises [UnhashableParamError] under the
    subheader of the album column, before any call to a service; no album
    and no film is searched or shown, and the cache is as it was.  So no
    run of the script, whatever the visitor does and whatever the secrets
    are, calls a service or changes the cache. *)
Theorem submission_ends_at_the_album_finder
  (host : Host) (env : Env) (browser : Browser) (cache : Cache) :
  (forall month day key id pw sp,
      form host browser = Some (month, day) ->
      pressed browser = true ->
      secret host "tmdb" "api_key" = Some key ->
      secret host "spotify" "client_id" = Some id ->
      secret host "spotify" "client_secret" = Some pw ->
      connect host id pw = Ok sp ->
      script host env browser cache
      = (Failed UnhashableParamError,
         form_drawn host
         ++ [Draw (element (st_subheader (album_subheader month day)))],
         cache))
  /\ calls (steps_of (script host env browser cache)) = []
  /\ cache_of (script host env browser cache) = cache.
Proof.
  split.
  - intros month day key id pw sp Hform Hpressed Hkey Hid Hpw Hsp.
    rewrite (script_submitted _ _ _ _ _ _ Hform Hpressed).
    rewrite (load_credentials_present _ _ _ _ Hkey Hid Hpw), Hsp.
    now rewrite submitted_page_raises.
  - unfold script.
    destruct (selected (range_up 1 13) _ _) as [month|]; [|split; reflexivity].
    destruct (selected (range_up 1 32) _ _) as [day|]; [|split; reflexivity].
    destruct (pressed browser); [|split; reflexivity].
    destruct (load_credentials host) as [[[key sp]|]|e];
      [|split; reflexivity|split; reflexivity].
    rewrite submitted_page_raises. split; reflexivity.
Qed.

(** On 1 March 2017, with the secrets of [host_stub]. *)
Lemma submission_ends_at_the_album_finder_witness :
  script host_stub env_stub presses empty_cache
  = (Failed UnhashableParamError,
     form_drawn host_stub
     ++ [Draw (element (st_subheader (album_subheader 3 1)))],
     empty_cache).
Proof.
  apply (proj1 (submission_ends_at_the_album_finder host_stub env_stub presses
                  empty_cache) 3 1 "KEY" "id" "secret" sp0);
    reflexivity.
Defined.

(** ** The cards *)

Lemma names_of_named artists :
  Forall named artists ->
  exists names,
    names_of artists = Ok (map VStr names).
Proof.
  induction 1 as [|artist artists [s Hs] _ [names IH]].
  - now exists [].
  - exists (s :: names). cbn. rewrite Hs. cbn. rewrite IH. reflexivity.
Qed.

Lemma strings_of_strings names : strings_of (map VStr names) = Ok names.
Proof.
  induction names as [|s names IH]; [reflexivity|].
  cbn. rewrite IH. reflexivity.
Qed.

(** The card of a documented album is whole. *)
Lemma render_album_document r : album_document r -> whole (render_album r).
Proof.
  intros ((artists & Hartists & Hnamed) & (name & Hname)
          & (images & Himages & Hurls) & (date & Hdate)
          & (urls & link & Hext & Hlink)).
  destruct (names_of_named artists Hnamed) as [names Hnames].
  unfold render_album, join.
  rewrite Hartists. cbn [eval iterate]. rewrite Hnames. cbn [eval].
  rewrite strings_of_strings. cbn [eval mbind outcome_bind].
  rewrite Hname. cbn [eval]. rewrite Himages. cbn [eval].
  rewrite Hdate, Hext. cbn [eval]. rewrite Hlink. cbn [eval].
  destruct Hurls as [|first images [url Hurl] _]; cbn [first_url_if_true].
  - split; [reflexivity|].
    eexists [_; _; _]. reflexivity.
  - rewrite Hurl. cbn [eval]. split; [reflexivity|].
    eexists [_; _; _; _]. reflexivity.
Qed.

(** The card of a film with a rating that is a number, or with none, is
    whole. *)
Lemma render_movie_record r : movie_record r -> whole (render_movie r).
Proof.
  intros [(i & Hid & _) (k & n & Hk & Hn)].
  destruct r as [| | | | |fields]; try discriminate Hid.
  unfold render_movie. cbn [dict_get eval] in *.
  assert (Hformat : format_1f k = Ok tt).
  { destruct k; try discriminate Hn; reflexivity. }
  destruct (assoc "title" fields) as [title|];
    destruct (assoc "vote_average" fields) as [rating|];
    injection Hk as ->;
    destruct (assoc "release_date" fields) as [date|];
    cbn [eval]; rewrite ?Hformat; cbn [eval];
    (destruct (assoc "poster_path" fields) as [poster|] eqn:Hposter;
     cbn [eval];
     [destruct (truthy poster); cbn [getitem]; rewrite ?Hposter; cbn [eval]|];
     (split; [reflexivity|]);
     first [eexists [_; _; _]; reflexivity | eexists [_; _]; reflexivity]).
Qed.


Lemma render_each_whole (render : pyval -> Drawn) records :
  Forall (fun r => whole (render r)) records ->
  render_each render records
  = (flat_map (fun r => fst (render r)) records, None).
Proof.
  induction 1 as [|r records [Hr _] _ IH]; [reflexivity|].
  cbn [render_each flat_map].
  destruct (render r) as [widgets o]. cbn in Hr. subst o.
  now rewrite IH.
Qed.


